(** * Technical indicators and key insights of [stock_analysis_app.py]

    The script fetches one year of daily bars into the data frame
    [historical_data], stores six indicator columns in it (lines 63-72) and
    then classifies the last row (lines 102-143).  This file embeds that
    pipeline and states the properties of the specification about it.

    Numbers.  A cell of a float64 column is either a finite value or NaN.
    Finite values are modelled as real numbers (rounding and overflow are
    idealised away); NaN is kept, with the IEEE rule that every ordered
    comparison against NaN is false.

    Library calls.  The indicator values are computed by [pandas]
    ([rolling], [ewm], [diff], [where]) and by [ta] ([SMAIndicator],
    [RSIIndicator], [BollingerBands]), called with the arguments the script
    gives and the defaults it leaves.  Modules [Pandas] and [TA] write out
    what those calls compute. *)

From Stdlib Require Import Reals Lra Lia.
From stdpp Require Import gmap strings list.

#[global] Instance R_eq_dec : EqDecision R := Req_dec_T.
#[global] Instance Rlt_decide : RelDecision Rlt := Rlt_dec.

(* ===================================================================== *)
(** ** Float cells *)
(* ===================================================================== *)

Module Float.

Inductive float := Num (r : R) | NaN.

#[global] Instance float_eq_dec : EqDecision float.
Proof. solve_decision. Defined.

(** [a > b]; false as soon as one side is NaN. *)
Definition fgt (a b : float) : bool :=
  match a, b with
  | Num x, Num y => bool_decide (y < x)%R
  | _, _ => false
  end.

(** [a < b]; false as soon as one side is NaN. *)
Definition flt (a b : float) : bool := fgt b a.

Definition fneg (a : float) : float :=
  match a with Num x => Num (- x) | NaN => NaN end.

Definition fadd (a b : float) : float :=
  match a, b with Num x, Num y => Num (x + y) | _, _ => NaN end.

Definition fsub (a b : float) : float :=
  match a, b with Num x, Num y => Num (x - y) | _, _ => NaN end.

Definition fmul (a b : float) : float :=
  match a, b with Num x, Num y => Num (x * y) | _, _ => NaN end.

(** Division.  With a zero divisor IEEE gives an infinity or NaN; the model
    has no infinities and answers NaN there.  The only division of the
    pipeline whose divisor can vanish is [emaup / emadn] in the RSI, and
    [np.where] discards that cell (see [TA.rsi_cell]). *)
Definition fdiv (a b : float) : float :=
  match a, b with
  | Num x, Num y => if decide (y = 0%R) then NaN else Num (x / y)
  | _, _ => NaN
  end.

End Float.
Export Float.

(* ===================================================================== *)
(** ** The pandas operations the pipeline uses *)
(* ===================================================================== *)

Module Pandas.

(** [s.diff(1)]: the first cell has no predecessor and is NaN. *)
Definition diff (s : list float) : list float :=
  match s with
  | [] => []
  | _ :: t => NaN :: zip_with fsub t s
  end.

(** The finite values of a window, if it holds no NaN. *)
Fixpoint finite_vals (l : list float) : option (list R) :=
  match l with
  | [] => Some []
  | Num r :: t => cons r <$> finite_vals t
  | NaN :: _ => None
  end.

(** The [w] cells that end at position [i] (for [w <= i + 1]). *)
Definition window (w i : nat) (s : list float) : list float :=
  take w (drop (S i - w) s).

(** [s.rolling(window=w, min_periods=w)] followed by an aggregate: the
    result is aligned with [s]; a cell is NaN unless the window that ends
    there is complete and holds [w] observations that are not NaN.
    ([min_periods] defaults to the window size, and [ta] passes the window
    size when [fillna] is false.) *)
Definition rolling (w : nat) (agg : list R → float) (s : list float)
  : list float :=
  imap (λ i _,
          if decide (S i < w)%nat then NaN
          else match finite_vals (window w i s) with
               | Some xs => agg xs
               | None => NaN
               end) s.

Definition Rsum (xs : list R) : R := foldr Rplus 0%R xs.

Definition mean (xs : list R) : R := (Rsum xs / INR (length xs))%R.

(** Sum of the squared deviations from the mean. *)
Definition sqdev (xs : list R) : R :=
  Rsum ((λ x, (x - mean xs) * (x - mean xs))%R <$> xs).

(** [.std(ddof)]: the square root of the sum of squared deviations over
    the number of observations less [ddof]; NaN when there are not more
    than [ddof] observations.  The default of pandas is [ddof=1]. *)
Definition std (ddof : nat) (xs : list R) : float :=
  if decide (length xs ≤ ddof)%nat then NaN
  else Num (sqrt (sqdev xs / (INR (length xs) - INR ddof))).

Definition rolling_mean (w : nat) (s : list float) : list float :=
  rolling w (λ xs, Num (mean xs)) s.

Definition rolling_std (w ddof : nat) (s : list float) : list float :=
  rolling w (std ddof) s.

(** [ewm(alpha, adjust=False).mean()] on a column without NaN:
    [y0 = x0] and [y(t) = (1 - alpha) * y(t-1) + alpha * x(t)]. *)
Fixpoint ewm_from (alpha y : R) (xs : list R) : list R :=
  match xs with
  | [] => []
  | x :: t =>
      let y' := ((1 - alpha) * y + alpha * x)%R in
      y' :: ewm_from alpha y' t
  end.

Definition ewm_raw (alpha : R) (xs : list R) : list R :=
  match xs with
  | [] => []
  | x :: t => x :: ewm_from alpha x t
  end.

(** With [min_periods], a cell is NaN until that many observations have
    been seen. *)
Definition ewm_mean (alpha : R) (min_periods : nat) (xs : list R)
  : list float :=
  imap (λ i y, if decide (S i < min_periods)%nat then NaN else Num y)
       (ewm_raw alpha xs).

End Pandas.
Export Pandas.

(* ===================================================================== *)
(** ** The ta indicators the pipeline uses *)
(* ===================================================================== *)

Module TA.

(** [SMAIndicator(close, window).sma_indicator()], with [fillna] left
    false; in [ta] it is
      series.rolling(window=periods, min_periods=periods).mean() *)
Definition sma_indicator (close : list float) (window : nat) : list float :=
  rolling_mean window close.

(** [diff.where(diff > 0, 0.0)].  A cell is kept only where the comparison
    holds, which excludes NaN, so the result holds no NaN. *)
Definition up_direction (close : list float) : list R :=
  (λ d, match d with
        | Num r => if decide (0 < r)%R then r else 0%R
        | NaN => 0%R
        end) <$> diff close.

(** [-diff.where(diff < 0, 0.0)]. *)
Definition down_direction (close : list float) : list R :=
  (λ d, match d with
        | Num r => if decide (r < 0)%R then (- r)%R else (- 0)%R
        | NaN => (- 0)%R
        end) <$> diff close.

(** One cell of
    [np.where(emadn == 0, 100, 100 - (100 / (1 + emaup / emadn)))].
    [NaN == 0] is false, and the arithmetic on NaN gives NaN. *)
Definition rsi_cell (emaup emadn : float) : float :=
  match emadn with
  | Num d =>
      if decide (d = 0%R) then Num 100
      else fsub (Num 100) (fdiv (Num 100) (fadd (Num 1) (fdiv emaup emadn)))
  | NaN => NaN
  end.

(** [RSIIndicator(close, window).rsi()], with [fillna] left false; in
    [ta] it is
      diff = close.diff(1)
      up_direction = diff.where(diff > 0, 0.0)
      down_direction = -diff.where(diff < 0, 0.0)
      emaup = up_direction.ewm(alpha=1/window, min_periods=window,
                               adjust=False).mean()
      emadn = down_direction.ewm(alpha=1/window, min_periods=window,
                                 adjust=False).mean()
      relative_strength = emaup / emadn
      rsi = np.where(emadn == 0, 100, 100 - (100 / (1 + relative_strength)))
    so the smoothing is Wilder's exponential one, seeded with the first
    cell of each direction column (which is 0, the first difference being
    NaN). *)
Definition rsi (close : list float) (window : nat) : list float :=
  let emaup := ewm_mean (1 / INR window) window (up_direction close) in
  let emadn := ewm_mean (1 / INR window) window (down_direction close) in
  zip_with rsi_cell emaup emadn.

(** [BollingerBands(close, window, window_dev)], with [fillna] left false;
    in [ta] it is
      mavg = close.rolling(window, min_periods=window).mean()
      mstd = close.rolling(window, min_periods=window).std(ddof=0)
      hband = mavg + window_dev * mstd
      lband = mavg - window_dev * mstd
    The script leaves the defaults [window=20] and [window_dev=2]. *)
Record BollingerBands := {
  mavg : list float;
  mstd : list float;
  hband : list float;
  lband : list float
}.

Definition bollinger (close : list float) (window : nat) (window_dev : R)
  : BollingerBands :=
  let mavg := rolling_mean window close in
  let mstd := rolling_std window 0 close in
  {| mavg := mavg;
     mstd := mstd;
     hband := zip_with fadd mavg (fmul (Num window_dev) <$> mstd);
     lband := zip_with fsub mavg (fmul (Num window_dev) <$> mstd) |}.

End TA.
Export TA.

(* ===================================================================== *)
(** ** The script *)
(* ===================================================================== *)

Module App.

(** The frame returned by [stock.history]: a date index and named float
    columns. *)
Record DataFrame := {
  index : list nat;
  columns : gmap string (list float)
}.

(** [df.empty]: one of the two axes has length zero. *)
Definition empty (df : DataFrame) : bool :=
  bool_decide (index df = []) || bool_decide (columns df = ∅).

(** [df[name]]; [None] is the KeyError. *)
Definition getitem (df : DataFrame) (name : string) : option (list float) :=
  columns df !! name.

(** [df[name] = col]: the frame is updated in place. *)
Definition setitem (df : DataFrame) (name : string) (col : list float)
  : DataFrame :=
  {| index := index df; columns := <[name := col]> (columns df) |}.

(** Lines 63-72. *)
Definition technical_indicators (historical_data : DataFrame)
  : option DataFrame :=
  close ← getitem historical_data "Close";
  let historical_data :=
    setitem historical_data "SMA50" (sma_indicator close 50) in
  close ← getitem historical_data "Close";
  let historical_data :=
    setitem historical_data "SMA200" (sma_indicator close 200) in
  close ← getitem historical_data "Close";
  let historical_data := setitem historical_data "RSI" (rsi close 14) in
  close ← getitem historical_data "Close";
  let bb_indicator := bollinger close 20 2 in
  let historical_data :=
    setitem historical_data "BB_High" (hband bb_indicator) in
  let historical_data :=
    setitem historical_data "BB_Low" (lband bb_indicator) in
  close ← getitem historical_data "Close";
  Some (setitem historical_data "Volatility" (rolling_std 20 1 close)).

(** The states of the specification.  The script has three outcomes per
    classification; [Undetermined], [MomentumUndetermined] and
    [BandUndetermined] are the extra states of the specification, listed so
    that its sentences can be stated. *)
Inductive TrendState := Upward | Downward | Sideways | Undetermined.
Inductive MomentumState :=
  Overbought | Oversold | Neutral | MomentumUndetermined.
Inductive VolatilityBandState :=
  AboveUpperBand | BelowLowerBand | WithinBands | BandUndetermined.

(** Lines 106-114. *)
Definition classify_trend (sma50 sma200 : float) : TrendState :=
  if fgt sma50 sma200 then Upward
  else if flt sma50 sma200 then Downward
  else Sideways.

(** Lines 118-123. *)
Definition classify_rsi (latest_rsi : float) : MomentumState :=
  if fgt latest_rsi (Num 70) then Overbought
  else if flt latest_rsi (Num 30) then Oversold
  else Neutral.

(** Lines 138-143. *)
Definition classify_bands (latest_close bb_high bb_low : float)
  : VolatilityBandState :=
  if fgt latest_close bb_high then AboveUpperBand
  else if flt latest_close bb_low then BelowLowerBand
  else WithinBands.

Record Insights := {
  trend : TrendState;
  momentum : MomentumState;
  latest_volatility : float;
  band_state : VolatilityBandState
}.

(** [df[name][-1]]; [None] is the KeyError or the IndexError. *)
Definition latest (df : DataFrame) (name : string) : option float :=
  getitem df name ≫= last.

(** Lines 102-143. *)
Definition key_insights (historical_data : DataFrame) : option Insights :=
  latest_close ← latest historical_data "Close";
  sma50 ← latest historical_data "SMA50";
  sma200 ← latest historical_data "SMA200";
  let trend := classify_trend sma50 sma200 in
  latest_rsi ← latest historical_data "RSI";
  let momentum := classify_rsi latest_rsi in
  latest_volatility ← latest historical_data "Volatility";
  latest_close ← latest historical_data "Close";
  bb_high ← latest historical_data "BB_High";
  bb_low ← latest historical_data "BB_Low";
  Some {| trend := trend;
          momentum := momentum;
          latest_volatility := latest_volatility;
          band_state := classify_bands latest_close bb_high bb_low |}.

(** What the page shows for a fetched frame: the analysis, the message of
    line 153, or the message of line 156 when the body raised. *)
Inductive Page :=
| Analysis (historical_data : DataFrame) (insights : Insights)
| NoHistoricalData
| ErrorOccurred.

(** Lines 37-156, from the fetched frame on. *)
Definition script (historical_data : DataFrame) : Page :=
  if empty historical_data then NoHistoricalData
  else
    match technical_indicators historical_data with
    | Some historical_data =>
        match key_insights historical_data with
        | Some insights => Analysis historical_data insights
        | None => ErrorOccurred
        end
    | None => ErrorOccurred
    end.

End App.
Export App.

(* ===================================================================== *)
(** ** Notions used in the statements *)
(* ===================================================================== *)

Section notions.

Local Open Scope R_scope.

(** The frame after lines 63-72, given the Close column that was read. *)
Definition with_indicators (df : DataFrame) (close : list float) : DataFrame :=
  let df := setitem df "SMA50" (sma_indicator close 50) in
  let df := setitem df "SMA200" (sma_indicator close 200) in
  let df := setitem df "RSI" (rsi close 14) in
  let df := setitem df "BB_High" (hband (bollinger close 20 2)) in
  let df := setitem df "BB_Low" (lband (bollinger close 20 2)) in
  setitem df "Volatility" (rolling_std 20 1 close).

(** The last cell of a column that is known not to be empty. *)
Definition last_cell (s : list float) : float := default NaN (last s).

(** The insights the script derives from a Close column. *)
Definition insights_of (close : list float) : Insights :=
  {| trend := classify_trend (last_cell (sma_indicator close 50))
                             (last_cell (sma_indicator close 200));
     momentum := classify_rsi (last_cell (rsi close 14));
     latest_volatility := last_cell (rolling_std 20 1 close);
     band_state :=
       classify_bands (last_cell close)
                      (last_cell (hband (bollinger close 20 2)))
                      (last_cell (lband (bollinger close 20 2))) |}.

(** The six columns of lines 63-72 with their windows. *)
Definition indicator_windows : list (string * nat) :=
  [("SMA50", 50%nat); ("SMA200", 200%nat); ("RSI", 14%nat);
   ("BB_High", 20%nat); ("BB_Low", 20%nat); ("Volatility", 20%nat)].

(** The names of the six columns the script writes. *)
Definition indicator_names : list string := indicator_windows.*1.

(** A column of a rolling indicator with window [w] over [n] bars: one cell
    per bar, NaN at the first [w - 1] positions, a number from position
    [w - 1] on. *)
Definition aligned (w n : nat) (col : list float) : Prop :=
  length col = n ∧
  ∀ i, (i < n)%nat →
       ((S i < w)%nat → col !! i = Some NaN) ∧
       ((w ≤ S i)%nat → ∃ r, col !! i = Some (Num r)).

(** Every close is above the one before it. *)
Definition strictly_increasing (close : list float) : Prop :=
  ∀ j a b, close !! j = Some (Num a) → close !! S j = Some (Num b) → a < b.

(** No close is below the one before it. *)
Definition no_drop (close : list float) : Prop :=
  ∀ j a b, close !! j = Some (Num a) → close !! S j = Some (Num b) → a <= b.

(** No close is above the one before it. *)
Definition no_rise (close : list float) : Prop :=
  ∀ j a b, close !! j = Some (Num a) → close !! S j = Some (Num b) → b <= a.

(** A frame as [stock.history] returns it, reduced to its Close column. *)
Definition price_frame (close : list float) : DataFrame :=
  {| index := seq 0 (length close); columns := {["Close" := close]} |}.

(** [m] closes at [a] followed by [n] closes at [b]. *)
Definition two_level (m n : nat) (a b : R) : list R :=
  replicate m a ++ replicate n b.

(** One bar: every indicator is still warming up. *)
Definition one_bar : list float := [Num 10].

(** Two hundred bars: 150 closes at 10, then 50 closes at 20. *)
Definition rally : list float := Num <$> two_level 150 50 10 20.

(** Fourteen bars at the same close. *)
Definition flat : list float := Num <$> two_level 14 0 10 10.

(** Twenty bars: ten closes at 1, then ten closes at 3. *)
Definition swing : list float := Num <$> two_level 10 10 1 3.

(** Fourteen bars, each one above the one before: 1, 2, ..., 14. *)
Definition climb : list float := (λ k, Num (INR k)) <$> seq 1 14.

(** Every column has one cell per row of the index, as in a pandas
    frame. *)
Definition rectangular (df : DataFrame) : Prop :=
  ∀ name col, getitem df name = Some col → length col = length (index df).

(** Every close is below the one before it. *)
Definition strictly_decreasing (close : list float) : Prop :=
  ∀ j a b, close !! j = Some (Num a) → close !! S j = Some (Num b) → b < a.

(** [df[names]] with a list of names: the named columns, or the KeyError
    when one of them is missing. *)
Definition select (df : DataFrame) (names : list string)
  : option (list (list float)) :=
  mapM (getitem df) names.

(** The series handed to the three charts of lines 76, 84 and 92. *)
Definition chart_series (historical_data : DataFrame)
  : option (list (list float)) :=
  price_chart ← select historical_data ["Close"; "SMA50"; "SMA200"];
  rsi_chart ← getitem historical_data "RSI";
  bb_chart ← select historical_data ["Close"; "BB_High"; "BB_Low"];
  Some (price_chart ++ [rsi_chart] ++ bb_chart).

(** A frame with one bar and no Close column. *)
Definition no_close_frame : DataFrame :=
  {| index := [0%nat]; columns := {["Open" := [Num 10]]} |}.

(** Fourteen bars, each one below the one before: 14, 13, ..., 1. *)
Definition slide : list float := (λ k, Num (INR (15 - k))) <$> seq 1 14.

(** Two hundred bars rising by one: 1, 2, ..., 200. *)
Definition ascent : list float := (λ k, Num (INR k)) <$> seq 1 200.

(** Twenty bars at 10 with the close of the tenth bar missing. *)
Definition gap : list float :=
  replicate 9 (Num 10) ++ [NaN] ++ replicate 10 (Num 10).

(** The sample standard deviation in the words of the specification,
    written on its own and not with [Rsum], [mean] and [sqdev] of the
    embedding: the values are added up, their mean is that total over
    their number, and the deviation is the square root of the sum of the
    squared distances to the mean over the number of values less one. *)
Fixpoint spec_total (xs : list R) : R :=
  match xs with
  | [] => 0
  | x :: t => x + spec_total t
  end.

Fixpoint spec_total_of_squares (xs : list R) : R :=
  match xs with
  | [] => 0
  | x :: t => x * x + spec_total_of_squares t
  end.

Definition spec_mean (xs : list R) : R := spec_total xs / INR (length xs).

Fixpoint spec_squared_distances (m : R) (xs : list R) : R :=
  match xs with
  | [] => 0
  | x :: t => (x - m) * (x - m) + spec_squared_distances m t
  end.

Definition spec_sample_std (xs : list R) : R :=
  sqrt (spec_squared_distances (spec_mean xs) xs / (INR (length xs) - 1)).

End notions.

(* ===================================================================== *)
(** ** Frames: reading and writing columns *)
(* ===================================================================== *)

Section frame_lemmas.

Lemma getitem_setitem_eq df name col :
  getitem (setitem df name col) name = Some col.
Proof. unfold getitem, setitem; simpl. apply lookup_insert_eq. Qed.

Lemma getitem_setitem_ne df name name' col :
  name ≠ name' → getitem (setitem df name col) name' = getitem df name'.
Proof. intros Hne. unfold getitem, setitem; simpl. by apply lookup_insert_ne. Qed.

Lemma index_setitem df name col : index (setitem df name col) = index df.
Proof. reflexivity. Qed.

Lemma technical_indicators_close df close :
  getitem df "Close" = Some close →
  technical_indicators df = Some (with_indicators df close).
Proof.
  intros Hc. unfold technical_indicators, with_indicators.
  rewrite Hc; simpl.
  repeat (rewrite !getitem_setitem_ne by done; rewrite Hc; simpl).
  reflexivity.
Qed.

Lemma technical_indicators_keyerror df :
  getitem df "Close" = None → technical_indicators df = None.
Proof. intros Hc. unfold technical_indicators. by rewrite Hc. Qed.

Lemma technical_indicators_inv df hd :
  technical_indicators df = Some hd →
  ∃ close, getitem df "Close" = Some close ∧ hd = with_indicators df close.
Proof.
  intros H. destruct (getitem df "Close") as [close|] eqn:Hc.
  - exists close. split; [done|].
    rewrite (technical_indicators_close _ _ Hc) in H. congruence.
  - rewrite (technical_indicators_keyerror _ Hc) in H. done.
Qed.

Lemma with_indicators_index df close :
  index (with_indicators df close) = index df.
Proof. reflexivity. Qed.

Lemma with_indicators_other df close name :
  name ≠ "SMA50" → name ≠ "SMA200" → name ≠ "RSI" →
  name ≠ "BB_High" → name ≠ "BB_Low" → name ≠ "Volatility" →
  getitem (with_indicators df close) name = getitem df name.
Proof.
  intros. unfold with_indicators; simpl.
  by rewrite !getitem_setitem_ne.
Qed.

Lemma with_indicators_sma50 df close :
  getitem (with_indicators df close) "SMA50" = Some (sma_indicator close 50).
Proof.
  unfold with_indicators; simpl.
  rewrite !getitem_setitem_ne by done. apply getitem_setitem_eq.
Qed.

Lemma with_indicators_sma200 df close :
  getitem (with_indicators df close) "SMA200" = Some (sma_indicator close 200).
Proof.
  unfold with_indicators; simpl.
  rewrite !getitem_setitem_ne by done. apply getitem_setitem_eq.
Qed.

Lemma with_indicators_rsi df close :
  getitem (with_indicators df close) "RSI" = Some (rsi close 14).
Proof.
  unfold with_indicators; simpl.
  rewrite !getitem_setitem_ne by done. apply getitem_setitem_eq.
Qed.

Lemma with_indicators_bb_high df close :
  getitem (with_indicators df close) "BB_High"
  = Some (hband (bollinger close 20 2)).
Proof.
  unfold with_indicators; simpl.
  rewrite !getitem_setitem_ne by done. apply getitem_setitem_eq.
Qed.

Lemma with_indicators_bb_low df close :
  getitem (with_indicators df close) "BB_Low"
  = Some (lband (bollinger close 20 2)).
Proof.
  unfold with_indicators; simpl.
  rewrite !getitem_setitem_ne by done. apply getitem_setitem_eq.
Qed.

Lemma with_indicators_volatility df close :
  getitem (with_indicators df close) "Volatility"
  = Some (rolling_std 20 1 close).
Proof. unfold with_indicators; simpl. apply getitem_setitem_eq. Qed.

Lemma with_indicators_close df close :
  getitem df "Close" = Some close →
  getitem (with_indicators df close) "Close" = Some close.
Proof. intros Hc. by rewrite with_indicators_other. Qed.

End frame_lemmas.

(* ===================================================================== *)
(** ** Shape of the indicator columns *)
(* ===================================================================== *)

Section shape_lemmas.

Lemma rolling_length w agg s : length (rolling w agg s) = length s.
Proof. apply length_imap. Qed.

Lemma rolling_lookup w agg s i :
  (i < length s)%nat →
  rolling w agg s !! i
  = Some (if decide (S i < w)%nat then NaN
          else match finite_vals (window w i s) with
               | Some xs => agg xs
               | None => NaN
               end).
Proof.
  intros Hi. unfold rolling. rewrite list_lookup_imap.
  destruct (lookup_lt_is_Some_2 s i Hi) as [x ->]. reflexivity.
Qed.

Lemma rolling_warmup w agg s i :
  (i < length s)%nat → (S i < w)%nat → rolling w agg s !! i = Some NaN.
Proof.
  intros Hi Hw. rewrite rolling_lookup by done. by rewrite decide_True.
Qed.

Lemma finite_vals_Num cs : finite_vals (Num <$> cs) = Some cs.
Proof. induction cs as [|c cs IH]; csimpl; [done|]. by rewrite IH. Qed.

Lemma window_Num w i cs :
  window w i (Num <$> cs) = Num <$> take w (drop (S i - w) cs).
Proof. unfold window. by rewrite <- fmap_drop, <- fmap_take. Qed.

Lemma rolling_ready w agg (cs : list R) i :
  (i < length cs)%nat → (w ≤ S i)%nat →
  rolling w agg (Num <$> cs) !! i
  = Some (agg (take w (drop (S i - w) cs))).
Proof.
  intros Hi Hw. rewrite rolling_lookup by (by rewrite length_fmap).
  rewrite decide_False by lia.
  by rewrite window_Num, finite_vals_Num.
Qed.

Lemma window_length w i (cs : list R) :
  (i < length cs)%nat → (w ≤ S i)%nat →
  length (take w (drop (S i - w) cs)) = w.
Proof. intros Hi Hw. rewrite length_take, length_drop. lia. Qed.

Lemma diff_length s : length (diff s) = length s.
Proof.
  destruct s as [|x t]; simpl; [done|].
  rewrite length_zip_with. simpl. lia.
Qed.

Lemma ewm_from_length alpha y xs : length (ewm_from alpha y xs) = length xs.
Proof.
  revert y. induction xs as [|x t IH]; intros y; simpl; [done|].
  by rewrite IH.
Qed.

Lemma ewm_raw_length alpha xs : length (ewm_raw alpha xs) = length xs.
Proof. destruct xs; simpl; [done|]. by rewrite ewm_from_length. Qed.

Lemma ewm_mean_length alpha mp xs : length (ewm_mean alpha mp xs) = length xs.
Proof. unfold ewm_mean. by rewrite length_imap, ewm_raw_length. Qed.

Lemma up_direction_length close : length (up_direction close) = length close.
Proof. unfold up_direction. by rewrite length_fmap, diff_length. Qed.

Lemma down_direction_length close :
  length (down_direction close) = length close.
Proof. unfold down_direction. by rewrite length_fmap, diff_length. Qed.

Lemma sma_indicator_length close w :
  length (sma_indicator close w) = length close.
Proof. apply rolling_length. Qed.

Lemma rsi_length close w : length (rsi close w) = length close.
Proof.
  unfold rsi. rewrite length_zip_with, !ewm_mean_length.
  rewrite up_direction_length, down_direction_length. lia.
Qed.

Lemma hband_length close w k : length (hband (bollinger close w k)) = length close.
Proof.
  simpl. rewrite length_zip_with, length_fmap.
  unfold rolling_mean, rolling_std. rewrite !rolling_length. lia.
Qed.

Lemma lband_length close w k : length (lband (bollinger close w k)) = length close.
Proof.
  simpl. rewrite length_zip_with, length_fmap.
  unfold rolling_mean, rolling_std. rewrite !rolling_length. lia.
Qed.

Lemma rolling_std_length w ddof close :
  length (rolling_std w ddof close) = length close.
Proof. apply rolling_length. Qed.

End shape_lemmas.

(* ===================================================================== *)
(** ** The script on a frame with a Close column *)
(* ===================================================================== *)

Section script_lemmas.

Lemma last_cell_Some s : (0 < length s)%nat → last s = Some (last_cell s).
Proof.
  intros Hlen. unfold last_cell.
  destruct (last s) as [x|] eqn:Hl; [done|].
  apply last_None in Hl. subst s. simpl in Hlen. lia.
Qed.

Lemma last_cell_lookup s :
  (0 < length s)%nat → s !! (length s - 1)%nat = Some (last_cell s).
Proof.
  intros Hlen. rewrite <- (last_cell_Some s Hlen), last_lookup.
  f_equal. lia.
Qed.

Lemma latest_with_indicators df close :
  getitem df "Close" = Some close → (0 < length close)%nat →
  let hd := with_indicators df close in
  latest hd "Close" = Some (last_cell close) ∧
  latest hd "SMA50" = Some (last_cell (sma_indicator close 50)) ∧
  latest hd "SMA200" = Some (last_cell (sma_indicator close 200)) ∧
  latest hd "RSI" = Some (last_cell (rsi close 14)) ∧
  latest hd "BB_High" = Some (last_cell (hband (bollinger close 20 2))) ∧
  latest hd "BB_Low" = Some (last_cell (lband (bollinger close 20 2))) ∧
  latest hd "Volatility" = Some (last_cell (rolling_std 20 1 close)).
Proof.
  intros Hc Hlen hd. unfold latest, hd.
  rewrite (with_indicators_close _ _ Hc), with_indicators_sma50,
    with_indicators_sma200, with_indicators_rsi, with_indicators_bb_high,
    with_indicators_bb_low, with_indicators_volatility.
  cbn [mbind option_bind].
  repeat split; apply last_cell_Some;
    rewrite ?sma_indicator_length, ?rsi_length, ?hband_length,
      ?lband_length, ?rolling_std_length; done.
Qed.

Lemma key_insights_with_indicators df close :
  getitem df "Close" = Some close → (0 < length close)%nat →
  key_insights (with_indicators df close) = Some (insights_of close).
Proof.
  intros Hc Hlen.
  destruct (latest_with_indicators df close Hc Hlen)
    as (H1 & H2 & H3 & H4 & H5 & H6 & H7).
  unfold key_insights.
  rewrite H1, H2, H3, H4, H5, H6, H7. reflexivity.
Qed.

Lemma script_analysis df close :
  empty df = false →
  getitem df "Close" = Some close → (0 < length close)%nat →
  script df = Analysis (with_indicators df close) (insights_of close).
Proof.
  intros He Hc Hlen. unfold script. rewrite He.
  rewrite (technical_indicators_close _ _ Hc).
  by rewrite (key_insights_with_indicators _ _ Hc Hlen).
Qed.

Lemma script_analysis_inv df hd ins :
  script df = Analysis hd ins →
  ∃ close, getitem df "Close" = Some close ∧
           hd = with_indicators df close ∧
           key_insights hd = Some ins.
Proof.
  unfold script. destruct (empty df); [done|].
  destruct (technical_indicators df) as [hd'|] eqn:Ht; [|done].
  destruct (key_insights hd') as [ins'|] eqn:Hk; [|done].
  intros [= <- <-].
  apply technical_indicators_inv in Ht as (close & Hc & ->).
  by exists close.
Qed.

End script_lemmas.

Section insight_lemmas.

Lemma empty_false df close :
  index df ≠ [] → getitem df "Close" = Some close → empty df = false.
Proof.
  intros Hi Hc. unfold empty.
  rewrite (bool_decide_eq_false_2 _ Hi); simpl.
  apply bool_decide_eq_false_2. intros He.
  unfold getitem in Hc. rewrite He, lookup_empty in Hc. done.
Qed.

Lemma key_insights_inv hd ins :
  key_insights hd = Some ins →
  ∃ c s50 s200 r v u l,
    latest hd "Close" = Some c ∧ latest hd "SMA50" = Some s50 ∧
    latest hd "SMA200" = Some s200 ∧ latest hd "RSI" = Some r ∧
    latest hd "Volatility" = Some v ∧ latest hd "BB_High" = Some u ∧
    latest hd "BB_Low" = Some l ∧
    ins = {| trend := classify_trend s50 s200;
             momentum := classify_rsi r;
             latest_volatility := v;
             band_state := classify_bands c u l |}.
Proof.
  unfold key_insights.
  destruct (latest hd "Close") as [c|]; [|done].
  destruct (latest hd "SMA50") as [s50|]; [|done].
  destruct (latest hd "SMA200") as [s200|]; [|done].
  destruct (latest hd "RSI") as [r|]; [|done].
  destruct (latest hd "Volatility") as [v|]; [|done].
  destruct (latest hd "BB_High") as [u|]; [|done].
  destruct (latest hd "BB_Low") as [l|]; [|done].
  simpl. intros [= <-]. by exists c, s50, s200, r, v, u, l.
Qed.

Lemma fgt_true x y : (y < x)%R → fgt (Num x) (Num y) = true.
Proof. intros H. simpl. by apply bool_decide_eq_true_2. Qed.

Lemma fgt_false x y : (x <= y)%R → fgt (Num x) (Num y) = false.
Proof. intros H. simpl. apply bool_decide_eq_false_2. lra. Qed.

Lemma classify_trend_cases x y :
  ((y < x)%R → classify_trend (Num x) (Num y) = Upward) ∧
  ((x < y)%R → classify_trend (Num x) (Num y) = Downward) ∧
  (x = y → classify_trend (Num x) (Num y) = Sideways).
Proof.
  unfold classify_trend, flt. repeat split; intros H.
  - by rewrite fgt_true.
  - rewrite fgt_false by lra. by rewrite fgt_true.
  - rewrite !fgt_false by lra. done.
Qed.

Lemma classify_rsi_cases r :
  ((70 < r)%R → classify_rsi (Num r) = Overbought) ∧
  ((r < 30)%R → classify_rsi (Num r) = Oversold) ∧
  ((30 <= r <= 70)%R → classify_rsi (Num r) = Neutral).
Proof.
  unfold classify_rsi, flt. repeat split; intros H.
  - by rewrite fgt_true.
  - rewrite fgt_false by lra. by rewrite fgt_true.
  - rewrite !fgt_false by lra. done.
Qed.

Lemma classify_bands_cases c u l :
  (l <= u)%R →
  ((u < c)%R → classify_bands (Num c) (Num u) (Num l) = AboveUpperBand) ∧
  ((c < l)%R → classify_bands (Num c) (Num u) (Num l) = BelowLowerBand) ∧
  ((l <= c <= u)%R → classify_bands (Num c) (Num u) (Num l) = WithinBands).
Proof.
  intros Hlu. unfold classify_bands, flt. repeat split; intros H.
  - by rewrite fgt_true.
  - rewrite fgt_false by lra. by rewrite fgt_true.
  - rewrite !fgt_false by lra. done.
Qed.

Lemma sqrt_nonneg x : (0 <= sqrt x)%R.
Proof. apply sqrt_pos. Qed.

Lemma std_nonneg ddof xs s : std ddof xs = Num s → (0 <= s)%R.
Proof.
  unfold std. case_decide; [done|]. intros [= <-]. apply sqrt_nonneg.
Qed.

Lemma rolling_std_nonneg w ddof close i s :
  rolling_std w ddof close !! i = Some (Num s) → (0 <= s)%R.
Proof.
  intros H. assert (Hi : (i < length close)%nat).
  { apply lookup_lt_Some in H. by rewrite rolling_std_length in H. }
  unfold rolling_std in H. rewrite rolling_lookup in H by done.
  injection H as H. case_decide; [done|].
  destruct (finite_vals _); [|done]. by eapply std_nonneg.
Qed.

(** Where both bands are defined, the lower one is not above the upper
    one. *)
Lemma bands_ordered close w k i u l :
  (0 <= k)%R →
  hband (bollinger close w k) !! i = Some (Num u) →
  lband (bollinger close w k) !! i = Some (Num l) →
  (l <= u)%R.
Proof.
  intros Hk Hu Hl. simpl in Hu, Hl.
  apply lookup_zip_with_Some in Hu as (m & s & Hu & Hm & Hs).
  apply lookup_zip_with_Some in Hl as (m' & s' & Hl & Hm' & Hs').
  rewrite Hm in Hm'. rewrite Hs in Hs'. injection Hm' as <-. injection Hs' as <-.
  rewrite list_lookup_fmap in Hs.
  destruct (rolling_std w 0 close !! i) as [sd|] eqn:Hsd; [|done].
  injection Hs as <-.
  destruct m as [m|], sd as [sd|]; try done.
  simpl in Hu, Hl. injection Hu as Hu. injection Hl as Hl.
  apply rolling_std_nonneg in Hsd. nra.
Qed.

End insight_lemmas.

(* ===================================================================== *)
(** ** Sums, means and deviations *)
(* ===================================================================== *)

Section numeric_lemmas.

Local Open Scope R_scope.

Lemma Rsum_app xs ys : Rsum (xs ++ ys) = Rsum xs + Rsum ys.
Proof.
  induction xs as [|x xs IH]; simpl; [lra|].
  unfold Rsum in *. simpl. rewrite IH. lra.
Qed.

Lemma Rsum_replicate n c : Rsum (replicate n c) = INR n * c.
Proof.
  induction n as [|n IH]; [simpl; lra|].
  rewrite S_INR. unfold Rsum in *. simpl. rewrite IH. lra.
Qed.

Lemma Rsum_zero xs : Forall (λ x, x = 0) xs → Rsum xs = 0.
Proof.
  induction 1 as [|x xs Hx _ IH]; [done|].
  unfold Rsum in *. simpl. rewrite IH, Hx. lra.
Qed.

Lemma Rsum_nonneg xs : Forall (λ x, 0 <= x) xs → 0 <= Rsum xs.
Proof.
  induction 1 as [|x xs Hx _ IH]; [simpl; lra|].
  unfold Rsum in *. simpl. lra.
Qed.

Lemma mean_replicate n c : (0 < n)%nat → mean (replicate n c) = c.
Proof.
  intros Hn. unfold mean. rewrite Rsum_replicate, length_replicate.
  assert (0 < INR n) by (apply lt_0_INR; lia). field. lra.
Qed.

Lemma sqdev_nonneg xs : 0 <= sqdev xs.
Proof.
  unfold sqdev. apply Rsum_nonneg.
  apply Forall_fmap, Forall_forall. intros x _.
  exact (Rle_0_sqr (x - mean xs)).
Qed.

Lemma sqdev_replicate n c : sqdev (replicate n c) = 0.
Proof.
  destruct n as [|n]; [reflexivity|].
  unfold sqdev. rewrite mean_replicate by lia.
  apply Rsum_zero, Forall_fmap, Forall_forall. intros x Hx. simpl.
  apply elem_of_replicate in Hx as [-> _]. lra.
Qed.

Lemma std_replicate ddof n c :
  (ddof < n)%nat → std ddof (replicate n c) = Num 0.
Proof.
  intros Hn. unfold std. rewrite length_replicate.
  rewrite decide_False by lia. rewrite sqdev_replicate.
  unfold Rdiv. rewrite Rmult_0_l, sqrt_0. done.
Qed.

End numeric_lemmas.

(* ===================================================================== *)
(** ** The smoothed gains and losses of the RSI *)
(* ===================================================================== *)

Section rsi_lemmas.

Local Open Scope R_scope.

Lemma ewm_from_Forall (P : R → Prop) alpha y xs :
  (∀ a b, P a → P b → P ((1 - alpha) * a + alpha * b)) →
  P y → Forall P xs → Forall P (ewm_from alpha y xs).
Proof.
  intros Hstep Hy Hxs. revert y Hy.
  induction Hxs as [|x xs Hx _ IH]; intros y Hy; simpl; [constructor|].
  constructor; [by apply Hstep|]. apply IH. by apply Hstep.
Qed.

Lemma ewm_raw_Forall (P : R → Prop) alpha xs :
  (∀ a b, P a → P b → P ((1 - alpha) * a + alpha * b)) →
  Forall P xs → Forall P (ewm_raw alpha xs).
Proof.
  intros Hstep Hxs. destruct Hxs as [|x xs Hx Hxs]; simpl; [constructor|].
  constructor; [done|]. by apply ewm_from_Forall.
Qed.

Lemma Rinv_unit_range x : 1 <= x → 0 < / x <= 1.
Proof.
  intros Hx. split.
  - apply Rinv_0_lt_compat. lra.
  - rewrite <- Rinv_1. apply Rinv_le_contravar; lra.
Qed.

Lemma smoothing_factor_range w : (0 < w)%nat → 0 < 1 / INR w <= 1.
Proof.
  intros Hw. assert (1 <= INR w) by (apply (le_INR 1); lia).
  unfold Rdiv. rewrite Rmult_1_l. by apply Rinv_unit_range.
Qed.

Lemma ewm_raw_nonneg alpha xs :
  0 <= alpha <= 1 → Forall (λ x, 0 <= x) xs →
  Forall (λ x, 0 <= x) (ewm_raw alpha xs).
Proof. intros Ha. apply ewm_raw_Forall. intros a b Ha' Hb. nra. Qed.

Lemma ewm_raw_zero alpha xs :
  Forall (λ x, x = 0) xs → Forall (λ x, x = 0) (ewm_raw alpha xs).
Proof. apply ewm_raw_Forall. intros a b -> ->. lra. Qed.

Lemma up_direction_nonneg close : Forall (λ x, 0 <= x) (up_direction close).
Proof.
  unfold up_direction. apply Forall_fmap, Forall_forall. intros d _. simpl.
  destruct d as [r|]; [|lra]. case_decide; lra.
Qed.

Lemma down_direction_nonneg close :
  Forall (λ x, 0 <= x) (down_direction close).
Proof.
  unfold down_direction. apply Forall_fmap, Forall_forall. intros d _. simpl.
  destruct d as [r|]; [|lra]. case_decide; lra.
Qed.

Lemma ewm_mean_lookup alpha mp xs i :
  ewm_mean alpha mp xs !! i
  = (λ y, if decide (S i < mp)%nat then NaN else Num y)
      <$> ewm_raw alpha xs !! i.
Proof. unfold ewm_mean. by rewrite list_lookup_imap. Qed.

(** A cell of the RSI column, from the two smoothed averages there. *)
Lemma rsi_lookup close w i :
  (i < length close)%nat →
  ∃ u d,
    ewm_raw (1 / INR w) (up_direction close) !! i = Some u ∧
    ewm_raw (1 / INR w) (down_direction close) !! i = Some d ∧
    rsi close w !! i
    = Some (if decide (S i < w)%nat then NaN else rsi_cell (Num u) (Num d)).
Proof.
  intros Hi.
  destruct (lookup_lt_is_Some_2 (ewm_raw (1 / INR w) (up_direction close)) i)
    as [u Hu]; [by rewrite ewm_raw_length, up_direction_length|].
  destruct (lookup_lt_is_Some_2 (ewm_raw (1 / INR w) (down_direction close)) i)
    as [d Hd]; [by rewrite ewm_raw_length, down_direction_length|].
  exists u, d. split; [done|]. split; [done|].
  unfold rsi. rewrite lookup_zip_with, !ewm_mean_lookup, Hu, Hd. simpl.
  by case_decide.
Qed.

(** The value [np.where] selects from two averages that are not negative. *)
Lemma rsi_cell_value u d :
  0 <= u → 0 <= d →
  ∃ r, rsi_cell (Num u) (Num d) = Num r ∧ 0 <= r <= 100 ∧
       (d = 0 → r = 100).
Proof.
  intros Hu Hd. unfold rsi_cell. case_decide as Hd0.
  - exists 100. split; [done|]. split; [lra|done].
  - assert (0 < d) by lra.
    assert (Hq : 0 <= u / d) by (apply Rle_mult_inv_pos; lra).
    unfold fdiv at 2. rewrite decide_False by done.
    unfold fadd, fdiv. rewrite decide_False by lra. unfold fsub.
    exists (100 - 100 / (1 + u / d)). split; [done|].
    assert (0 < / (1 + u / d) <= 1) by (apply Rinv_unit_range; lra).
    unfold Rdiv at 1. split; [nra|]. intros ->. lra.
Qed.

Lemma rsi_cell_bounded close w i r :
  (0 < w)%nat → rsi close w !! i = Some (Num r) → 0 <= r <= 100.
Proof.
  intros Hw Hr.
  assert (Hi : (i < length close)%nat).
  { apply lookup_lt_Some in Hr. by rewrite rsi_length in Hr. }
  destruct (rsi_lookup close w i Hi) as (u & d & Hu & Hd & Hcell).
  rewrite Hcell in Hr. case_decide; [done|].
  pose proof (smoothing_factor_range w Hw) as Ha.
  assert (0 <= u) as Hu0.
  { eapply (Forall_lookup_1 _ _ _ _ (ewm_raw_nonneg (1 / INR w) _ _
              (up_direction_nonneg close)) Hu). }
  assert (0 <= d) as Hd0.
  { eapply (Forall_lookup_1 _ _ _ _ (ewm_raw_nonneg (1 / INR w) _ _
              (down_direction_nonneg close)) Hd). }
  destruct (rsi_cell_value u d Hu0 Hd0) as (r' & Hr' & Hb & _).
  rewrite Hr' in Hr. by simplify_eq.
  Unshelve. all: lra.
Qed.

End rsi_lemmas.

(* ===================================================================== *)
(** ** Series without losses, series without gains *)
(* ===================================================================== *)

Section direction_lemmas.

Local Open Scope R_scope.

Lemma diff_lookup_inv s j d :
  diff s !! j = Some d →
  (j = 0%nat ∧ d = NaN) ∨
  ∃ j' a b, j = S j' ∧ s !! j' = Some a ∧ s !! j = Some b ∧ d = fsub b a.
Proof.
  destruct s as [|x t]; [done|]. simpl.
  destruct j as [|j']; simpl.
  - intros [= <-]. by left.
  - intros H. right.
    apply lookup_zip_with_Some in H as (b & a & -> & Hb & Ha).
    by exists j', a, b.
Qed.

Lemma down_direction_no_drop close :
  no_drop close → Forall (λ x, x = 0) (down_direction close).
Proof.
  intros Hmono. apply Forall_lookup. intros j x Hx.
  unfold down_direction in Hx. rewrite list_lookup_fmap in Hx.
  destruct (diff close !! j) as [d|] eqn:Hd; [|done].
  simpl in Hx. injection Hx as <-.
  apply diff_lookup_inv in Hd as [[_ ->] | (j' & a & b & -> & Ha & Hb & ->)].
  - lra.
  - destruct a as [a|], b as [b|]; simpl; try lra.
    specialize (Hmono j' a b Ha Hb). case_decide; lra.
Qed.

Lemma up_direction_no_rise close :
  no_rise close → Forall (λ x, x = 0) (up_direction close).
Proof.
  intros Hmono. apply Forall_lookup. intros j x Hx.
  unfold up_direction in Hx. rewrite list_lookup_fmap in Hx.
  destruct (diff close !! j) as [d|] eqn:Hd; [|done].
  simpl in Hx. injection Hx as <-.
  apply diff_lookup_inv in Hd as [[_ ->] | (j' & a & b & -> & Ha & Hb & ->)].
  - lra.
  - destruct a as [a|], b as [b|]; simpl; try lra.
    specialize (Hmono j' a b Ha Hb). case_decide; lra.
Qed.

Lemma strictly_increasing_no_drop close :
  strictly_increasing close → no_drop close.
Proof. intros H j a b Ha Hb. specialize (H j a b Ha Hb). lra. Qed.

(** The smoothed loss of a series without drops is zero everywhere. *)
Lemma emadn_no_drop close alpha i d :
  no_drop close →
  ewm_raw alpha (down_direction close) !! i = Some d → d = 0.
Proof.
  intros Hmono Hd.
  exact (Forall_lookup_1 _ _ _ _
           (ewm_raw_zero alpha _ (down_direction_no_drop _ Hmono)) Hd).
Qed.

Lemma emaup_no_rise close alpha i u :
  no_rise close →
  ewm_raw alpha (up_direction close) !! i = Some u → u = 0.
Proof.
  intros Hmono Hu.
  exact (Forall_lookup_1 _ _ _ _
           (ewm_raw_zero alpha _ (up_direction_no_rise _ Hmono)) Hu).
Qed.

(** Once [window] cells have been seen the RSI is a number, whatever the
    closes are. *)
Lemma rsi_defined close w i :
  (0 < w)%nat → (i < length close)%nat → (w ≤ S i)%nat →
  ∃ r, rsi close w !! i = Some (Num r).
Proof.
  intros Hw Hi Hwi.
  destruct (rsi_lookup close w i Hi) as (u & d & Hu & Hd & Hcell).
  rewrite decide_False in Hcell by lia.
  pose proof (smoothing_factor_range w Hw) as Ha.
  assert (0 <= u) as Hu0.
  { eapply (Forall_lookup_1 _ _ _ _ (ewm_raw_nonneg (1 / INR w) _ _
              (up_direction_nonneg close)) Hu). }
  assert (0 <= d) as Hd0.
  { eapply (Forall_lookup_1 _ _ _ _ (ewm_raw_nonneg (1 / INR w) _ _
              (down_direction_nonneg close)) Hd). }
  destruct (rsi_cell_value u d Hu0 Hd0) as (r & Hr & _).
  exists r. by rewrite Hcell, Hr.
  Unshelve. all: lra.
Qed.

Lemma rsi_warmup close w i :
  (i < length close)%nat → (S i < w)%nat → rsi close w !! i = Some NaN.
Proof.
  intros Hi Hwi.
  destruct (rsi_lookup close w i Hi) as (u & d & _ & _ & Hcell).
  by rewrite decide_True in Hcell.
Qed.

(** With a zero smoothed loss the selected value is 100. *)
Lemma rsi_zero_loss close w i r d :
  (0 < w)%nat →
  rsi close w !! i = Some (Num r) →
  ewm_raw (1 / INR w) (down_direction close) !! i = Some d → d = 0 →
  r = 100.
Proof.
  intros Hw Hr Hd Hd0.
  assert (Hi : (i < length close)%nat).
  { apply lookup_lt_Some in Hr. by rewrite rsi_length in Hr. }
  destruct (rsi_lookup close w i Hi) as (u & d' & Hu & Hd' & Hcell).
  rewrite Hd in Hd'. injection Hd' as <-.
  rewrite Hcell in Hr. case_decide; [done|].
  subst d. unfold rsi_cell in Hr. rewrite decide_True in Hr by done.
  by simplify_eq.
Qed.

End direction_lemmas.

(* ===================================================================== *)
(** ** Which cells of an indicator column are numbers *)
(* ===================================================================== *)

Section alignment_lemmas.

Lemma rolling_mean_aligned w (cs : list R) :
  aligned w (length cs) (rolling_mean w (Num <$> cs)).
Proof.
  split.
  - unfold rolling_mean. by rewrite rolling_length, length_fmap.
  - intros i Hi. split; intros Hw.
    + apply rolling_warmup; [by rewrite length_fmap | done].
    + unfold rolling_mean. rewrite rolling_ready by done. eauto.
Qed.

Lemma rolling_std_aligned w ddof (cs : list R) :
  (ddof < w)%nat →
  aligned w (length cs) (rolling_std w ddof (Num <$> cs)).
Proof.
  intros Hd. split.
  - unfold rolling_std. by rewrite rolling_length, length_fmap.
  - intros i Hi. split; intros Hw.
    + apply rolling_warmup; [by rewrite length_fmap | done].
    + unfold rolling_std. rewrite rolling_ready by done.
      unfold std. rewrite window_length by done.
      rewrite decide_False by lia. eauto.
Qed.

Lemma rsi_aligned w close :
  (0 < w)%nat → aligned w (length close) (rsi close w).
Proof.
  intros Hw. split; [apply rsi_length|].
  intros i Hi. split; intros Hwi.
  - by apply rsi_warmup.
  - by apply rsi_defined.
Qed.

Lemma band_aligned (op : float → float → float) w k (cs : list R) :
  (0 < w)%nat →
  (∀ x y, ∃ r, op (Num x) (Num y) = Num r) → (∀ y, op NaN y = NaN) →
  aligned w (length cs)
    (zip_with op (rolling_mean w (Num <$> cs))
                 (fmul (Num k) <$> rolling_std w 0 (Num <$> cs))).
Proof.
  intros Hw Hnum Hnan.
  destruct (rolling_mean_aligned w cs) as [Hlm Hm].
  destruct (rolling_std_aligned w 0 cs Hw) as [Hls Hs].
  split.
  - rewrite length_zip_with, length_fmap, Hlm, Hls. lia.
  - intros i Hi. rewrite lookup_zip_with, list_lookup_fmap.
    destruct (Hm i Hi) as [Hm1 Hm2]. destruct (Hs i Hi) as [Hs1 Hs2].
    split; intros Hwi.
    + rewrite (Hm1 Hwi), (Hs1 Hwi). simpl. by rewrite Hnan.
    + destruct (Hm2 Hwi) as [m ->]. destruct (Hs2 Hwi) as [s ->]. simpl.
      destruct (Hnum m (k * s)%R) as [r ->]. eauto.
Qed.

Lemma hband_aligned w k (cs : list R) :
  (0 < w)%nat →
  aligned w (length cs) (hband (bollinger (Num <$> cs) w k)).
Proof. intros Hw. apply band_aligned; [done| |done]. simpl. eauto. Qed.

Lemma lband_aligned w k (cs : list R) :
  (0 < w)%nat →
  aligned w (length cs) (lband (bollinger (Num <$> cs) w k)).
Proof. intros Hw. apply band_aligned; [done| |done]. simpl. eauto. Qed.

End alignment_lemmas.

(* ===================================================================== *)
(** ** Sample frames *)
(* ===================================================================== *)

Section sample_frames.

Local Open Scope R_scope.

Lemma price_frame_close close : getitem (price_frame close) "Close" = Some close.
Proof. unfold getitem, price_frame; simpl. apply lookup_singleton_eq. Qed.

Lemma script_price_frame close :
  (0 < length close)%nat →
  script (price_frame close)
  = Analysis (with_indicators (price_frame close) close) (insights_of close).
Proof.
  intros Hlen. apply script_analysis; [|apply price_frame_close|done].
  apply (empty_false _ close); [|apply price_frame_close].
  simpl. destruct close; [simpl in Hlen; lia|done].
Qed.

Lemma two_level_length m n a b : length (two_level m n a b) = (m + n)%nat.
Proof. unfold two_level. by rewrite length_app, !length_replicate. Qed.

Lemma two_level_lookup m n a b j x :
  two_level m n a b !! j = Some x →
  ((j < m)%nat ∧ x = a) ∨ ((m ≤ j)%nat ∧ x = b).
Proof.
  unfold two_level. intros H.
  apply lookup_app_Some in H as [H | [Hge H]].
  - apply lookup_replicate in H as [-> ?]. by left.
  - apply lookup_replicate in H as [-> ?].
    rewrite length_replicate in Hge. by right.
Qed.

Lemma two_level_no_drop m n a b :
  a <= b → no_drop (Num <$> two_level m n a b).
Proof.
  intros Hab j x y Hx Hy.
  rewrite list_lookup_fmap in Hx, Hy.
  destruct (two_level m n a b !! j) as [x'|] eqn:Hx'; [|done].
  destruct (two_level m n a b !! S j) as [y'|] eqn:Hy'; [|done].
  simpl in Hx, Hy. injection Hx as <-. injection Hy as <-.
  apply two_level_lookup in Hx' as [[? ->] | [? ->]];
    apply two_level_lookup in Hy' as [[? ->] | [? ->]]; lra || lia.
Qed.

Lemma two_level_no_rise m n a b :
  b <= a → no_rise (Num <$> two_level m n a b).
Proof.
  intros Hab j x y Hx Hy.
  rewrite list_lookup_fmap in Hx, Hy.
  destruct (two_level m n a b !! j) as [x'|] eqn:Hx'; [|done].
  destruct (two_level m n a b !! S j) as [y'|] eqn:Hy'; [|done].
  simpl in Hx, Hy. injection Hx as <-. injection Hy as <-.
  apply two_level_lookup in Hx' as [[? ->] | [? ->]];
    apply two_level_lookup in Hy' as [[? ->] | [? ->]]; lra || lia.
Qed.

Lemma last_cell_at s i x :
  length s = S i → s !! i = Some x → last_cell s = x.
Proof.
  intros Hlen Hx.
  pose proof (last_cell_lookup s) as Hl. rewrite Hlen in Hl.
  replace (S i - 1)%nat with i in Hl by lia.
  rewrite Hx in Hl. symmetry. apply (inj Some). apply Hl. lia.
Qed.

Lemma rally_last_close : last_cell rally = Num 20.
Proof. reflexivity. Qed.

Lemma rally_sma50 : last_cell (sma_indicator rally 50) = Num 20.
Proof.
  apply (last_cell_at _ 199); [by rewrite sma_indicator_length|].
  unfold sma_indicator, rolling_mean, rally.
  rewrite rolling_ready by (rewrite ?two_level_length; lia).
  do 2 f_equal.
  etransitivity; [|apply (mean_replicate 50 20); lia].
  f_equal.
Qed.

Lemma rally_sma200 : last_cell (sma_indicator rally 200) = Num (25 / 2).
Proof.
  apply (last_cell_at _ 199); [by rewrite sma_indicator_length|].
  unfold sma_indicator, rolling_mean, rally.
  rewrite rolling_ready by (rewrite ?two_level_length; lia).
  do 2 f_equal.
  transitivity (mean (two_level 150 50 10 20)); [f_equal|].
  unfold mean. rewrite two_level_length. unfold two_level.
  rewrite Rsum_app, !Rsum_replicate, !INR_IZR_INZ.
  cbv [Z.of_nat Pos.of_succ_nat Pos.succ Nat.add]. lra.
Qed.

Lemma rally_rsi : last_cell (rsi rally 14) = Num 100.
Proof.
  apply (last_cell_at _ 199); [by rewrite rsi_length|].
  destruct (rsi_defined rally 14 199) as [r Hr]; [lia|simpl; lia|lia|].
  rewrite Hr. do 2 f_equal.
  destruct (lookup_lt_is_Some_2
              (ewm_raw (1 / INR 14) (down_direction rally)) 199) as [d Hd].
  { rewrite ewm_raw_length, down_direction_length. simpl. lia. }
  apply (rsi_zero_loss rally 14 199 r d); [lia|done|done|].
  eapply emadn_no_drop; [|exact Hd]. apply two_level_no_drop. lra.
Qed.

Lemma rally_bands :
  last_cell (hband (bollinger rally 20 2)) = Num 20 ∧
  last_cell (lband (bollinger rally 20 2)) = Num 20.
Proof.
  assert (Hm : rolling_mean 20 rally !! 199%nat = Some (Num 20)).
  { unfold rolling_mean, rally.
    rewrite rolling_ready by (rewrite ?two_level_length; lia).
    do 2 f_equal.
    etransitivity; [|apply (mean_replicate 20 20); lia]. f_equal. }
  assert (Hs : rolling_std 20 0 rally !! 199%nat = Some (Num 0)).
  { unfold rolling_std, rally.
    rewrite rolling_ready by (rewrite ?two_level_length; lia).
    f_equal.
    etransitivity; [|apply (std_replicate 0 20 20); lia]. f_equal. }
  split.
  - apply (last_cell_at _ 199); [by rewrite hband_length|].
    unfold bollinger, hband.
    rewrite lookup_zip_with, list_lookup_fmap, Hm, Hs. simpl.
    do 2 f_equal. lra.
  - apply (last_cell_at _ 199); [by rewrite lband_length|].
    unfold bollinger, lband.
    rewrite lookup_zip_with, list_lookup_fmap, Hm, Hs. simpl.
    do 2 f_equal. lra.
Qed.

Lemma rally_volatility : last_cell (rolling_std 20 1 rally) = Num 0.
Proof.
  apply (last_cell_at _ 199); [by rewrite rolling_std_length|].
  unfold rolling_std, rally.
  rewrite rolling_ready by (rewrite ?two_level_length; lia).
  f_equal.
  etransitivity; [|apply (std_replicate 1 20 20); lia]. f_equal.
Qed.

End sample_frames.

(* ===================================================================== *)
(** ** Key insights: the three classifications *)
(* ===================================================================== *)

Section classification.

Local Open Scope R_scope.

Lemma script_insights df hd ins :
  script df = Analysis hd ins →
  ∃ c s50 s200 r v u l,
    latest hd "Close" = Some c ∧ latest hd "SMA50" = Some s50 ∧
    latest hd "SMA200" = Some s200 ∧ latest hd "RSI" = Some r ∧
    latest hd "Volatility" = Some v ∧ latest hd "BB_High" = Some u ∧
    latest hd "BB_Low" = Some l ∧
    ins = {| trend := classify_trend s50 s200;
             momentum := classify_rsi r;
             latest_volatility := v;
             band_state := classify_bands c u l |}.
Proof.
  intros H. apply script_analysis_inv in H as (close & _ & _ & Hk).
  by apply key_insights_inv.
Qed.

Lemma classify_trend_nan s50 s200 :
  s50 = NaN ∨ s200 = NaN → classify_trend s50 s200 = Sideways.
Proof.
  unfold classify_trend, flt.
  intros [-> | ->]; [by destruct s200 | by destruct s50].
Qed.

Lemma classify_rsi_nan : classify_rsi NaN = Neutral.
Proof. reflexivity. Qed.

Lemma classify_bands_nan c : classify_bands c NaN NaN = WithinBands.
Proof. unfold classify_bands, flt. by destruct c. Qed.

(** The two band cells of a row are numbers together or NaN together. *)
Lemma bands_nan_together close w k i u l :
  hband (bollinger close w k) !! i = Some u →
  lband (bollinger close w k) !! i = Some l →
  u = NaN ↔ l = NaN.
Proof.
  unfold bollinger, hband, lband. intros Hu Hl.
  apply lookup_zip_with_Some in Hu as (m & s & -> & Hm & Hs).
  apply lookup_zip_with_Some in Hl as (m' & s' & -> & Hm' & Hs').
  rewrite Hm in Hm'. rewrite Hs in Hs'.
  injection Hm' as <-. injection Hs' as <-.
  destruct m, s; simpl; split; done.
Qed.

(** The two band cells the script reads come from the same row. *)
Lemma script_band_cells df hd ins u l :
  script df = Analysis hd ins →
  latest hd "BB_High" = Some u → latest hd "BB_Low" = Some l →
  ∃ close i, hband (bollinger close 20 2) !! i = Some u ∧
             lband (bollinger close 20 2) !! i = Some l.
Proof.
  intros H Hu Hl. apply script_analysis_inv in H as (close & _ & -> & _).
  unfold latest in Hu, Hl.
  rewrite with_indicators_bb_high in Hu. rewrite with_indicators_bb_low in Hl.
  cbn [mbind option_bind] in Hu, Hl. rewrite last_lookup in Hu, Hl.
  rewrite hband_length in Hu. rewrite lband_length in Hl.
  by exists close, (pred (length close)).
Qed.

(** With an undefined average both comparisons of lines 106 and 109 are
    false, and the [else] branch is taken. *)
Lemma trend_of_undefined_average df hd ins s50 s200 :
  script df = Analysis hd ins →
  latest hd "SMA50" = Some s50 → latest hd "SMA200" = Some s200 →
  s50 = NaN ∨ s200 = NaN → trend ins = Sideways.
Proof.
  intros H H50 H200.
  apply script_insights in H
    as (c & s50' & s200' & r & v & u & l & _ & H50' & H200' & _ & _ & _ & _ & ->).
  rewrite H50 in H50'. rewrite H200 in H200'.
  injection H50' as <-. injection H200' as <-. simpl.
  apply classify_trend_nan.
Qed.

(** With an undefined RSI both comparisons of lines 118 and 120 are false,
    and the [else] branch is taken. *)
Lemma momentum_of_undefined_rsi df hd ins :
  script df = Analysis hd ins →
  latest hd "RSI" = Some NaN → momentum ins = Neutral.
Proof.
  intros H Hr.
  apply script_insights in H
    as (c & s50 & s200 & r' & v & u & l & _ & _ & _ & Hr' & _ & _ & _ & ->).
  rewrite Hr in Hr'. injection Hr' as <-. reflexivity.
Qed.

(** With an undefined band both comparisons of lines 138 and 140 are
    false, and the [else] branch is taken. *)
Lemma band_state_of_undefined_band df hd ins bb_high bb_low :
  script df = Analysis hd ins →
  latest hd "BB_High" = Some bb_high → latest hd "BB_Low" = Some bb_low →
  bb_high = NaN ∨ bb_low = NaN → band_state ins = WithinBands.
Proof.
  intros H Hu Hl Hnan.
  destruct (script_band_cells _ _ _ _ _ H Hu Hl) as (close & i & Hui & Hli).
  apply script_insights in H
    as (c' & s50 & s200 & r & v & u' & l' & _ & _ & _ & _ & _ & Hu' & Hl' & ->).
  rewrite Hu in Hu'. rewrite Hl in Hl'.
  injection Hu' as <-. injection Hl' as <-. simpl.
  assert (bb_high = NaN ∧ bb_low = NaN) as [-> ->].
  { pose proof (bands_nan_together _ _ _ _ _ _ Hui Hli) as Hiff.
    destruct Hnan; split; tauto. }
  apply classify_bands_nan.
Qed.

(** C1, as the script has it.  When the 50-day and the 200-day average of
    the last row are both defined, the trend is Upward if the first is
    above the second, Downward if it is below, and Sideways if they are
    equal.  The script has no Undetermined trend. *)
Theorem trend_classification df hd ins x y :
  script df = Analysis hd ins →
  latest hd "SMA50" = Some (Num x) → latest hd "SMA200" = Some (Num y) →
  (y < x → trend ins = Upward) ∧
  (x < y → trend ins = Downward) ∧
  (x = y → trend ins = Sideways).
Proof.
  intros H H50 H200.
  apply script_insights in H
    as (c & s50' & s200' & r & v & u & l & _ & H50' & H200' & _ & _ & _ & _ & ->).
  rewrite H50 in H50'. rewrite H200 in H200'.
  injection H50' as <-. injection H200' as <-. simpl.
  apply classify_trend_cases.
Qed.

(** C5, as the script has it.  When the RSI of the last row is defined,
    the momentum is Overbought above 70, Oversold below 30 and Neutral
    from 30 to 70, both bounds included.  The script has no Undetermined
    momentum. *)
Theorem momentum_classification df hd ins r :
  script df = Analysis hd ins →
  latest hd "RSI" = Some (Num r) →
  (70 < r → momentum ins = Overbought) ∧
  (r < 30 → momentum ins = Oversold) ∧
  (30 <= r <= 70 → momentum ins = Neutral).
Proof.
  intros H Hr.
  apply script_insights in H
    as (c & s50 & s200 & r' & v & u & l & _ & _ & _ & Hr' & _ & _ & _ & ->).
  rewrite Hr in Hr'. injection Hr' as <-. simpl.
  apply classify_rsi_cases.
Qed.

(** C2, as the script has it.  When the last close and both bands of the
    last row are defined, the state is AboveUpperBand if the close is above
    the upper band, BelowLowerBand if it is below the lower band, and
    WithinBands otherwise, a close equal to a band included.  The script
    has no Undetermined band state. *)
Theorem band_classification df hd ins c u l :
  script df = Analysis hd ins →
  latest hd "Close" = Some (Num c) →
  latest hd "BB_High" = Some (Num u) → latest hd "BB_Low" = Some (Num l) →
  (u < c → band_state ins = AboveUpperBand) ∧
  (c < l → band_state ins = BelowLowerBand) ∧
  (l <= c <= u → band_state ins = WithinBands).
Proof.
  intros H Hc Hu Hl.
  destruct (script_band_cells _ _ _ _ _ H Hu Hl) as (close & i & Hui & Hli).
  apply script_insights in H
    as (c' & s50 & s200 & r & v & u' & l' & Hc' & _ & _ & _ & _ & Hu' & Hl' & ->).
  rewrite Hc in Hc'. rewrite Hu in Hu'. rewrite Hl in Hl'.
  injection Hc' as <-. injection Hu' as <-. injection Hl' as <-.
  simpl. apply classify_bands_cases.
  apply (bands_ordered close 20 2 i); [lra|done|done].
Qed.

End classification.

Section classification_examples.

Local Open Scope R_scope.

Lemma rally_script :
  script (price_frame rally)
  = Analysis (with_indicators (price_frame rally) rally) (insights_of rally).
Proof. apply script_price_frame. simpl. lia. Qed.

Lemma one_bar_script :
  script (price_frame one_bar)
  = Analysis (with_indicators (price_frame one_bar) one_bar)
             (insights_of one_bar).
Proof. apply script_price_frame. simpl. lia. Qed.

Lemma rally_latest :
  let hd := with_indicators (price_frame rally) rally in
  latest hd "Close" = Some (Num 20) ∧
  latest hd "SMA50" = Some (Num 20) ∧
  latest hd "SMA200" = Some (Num (25 / 2)) ∧
  latest hd "RSI" = Some (Num 100) ∧
  latest hd "BB_High" = Some (Num 20) ∧
  latest hd "BB_Low" = Some (Num 20) ∧
  latest hd "Volatility" = Some (Num 0).
Proof.
  destruct rally_bands as [Hu Hl].
  destruct (latest_with_indicators (price_frame rally) rally)
    as (H1 & H2 & H3 & H4 & H5 & H6 & H7);
    [apply price_frame_close | simpl; lia |].
  rewrite rally_last_close in H1. rewrite rally_sma50 in H2.
  rewrite rally_sma200 in H3. rewrite rally_rsi in H4.
  rewrite Hu in H5. rewrite Hl in H6. rewrite rally_volatility in H7.
  exact (conj H1 (conj H2 (conj H3 (conj H4 (conj H5 (conj H6 H7)))))).
Qed.

Lemma one_bar_latest :
  let hd := with_indicators (price_frame one_bar) one_bar in
  latest hd "Close" = Some (Num 10) ∧
  latest hd "SMA50" = Some NaN ∧
  latest hd "SMA200" = Some NaN ∧
  latest hd "RSI" = Some NaN ∧
  latest hd "BB_High" = Some NaN ∧
  latest hd "BB_Low" = Some NaN ∧
  latest hd "Volatility" = Some NaN.
Proof.
  apply (latest_with_indicators (price_frame one_bar) one_bar);
    [apply price_frame_close | simpl; lia].
Qed.

(** The rally ends with the 50-day average (20) above the 200-day average
    (12.5): the trend is Upward. *)
Lemma trend_classification_witness : trend (insights_of rally) = Upward.
Proof.
  destruct rally_latest as (_ & H50 & H200 & _).
  destruct (trend_classification _ _ _ _ _ rally_script H50 H200) as [Hup _].
  apply Hup. lra.
Defined.

(** With a single bar neither average is defined, and the script reports
    a sideways trend rather than an undetermined one. *)
Lemma trend_short_history_counterexample :
  script (price_frame one_bar)
  = Analysis (with_indicators (price_frame one_bar) one_bar)
             (insights_of one_bar) ∧
  latest (with_indicators (price_frame one_bar) one_bar) "SMA50" = Some NaN ∧
  latest (with_indicators (price_frame one_bar) one_bar) "SMA200" = Some NaN ∧
  trend (insights_of one_bar) = Sideways ∧
  trend (insights_of one_bar) ≠ Undetermined.
Proof.
  destruct one_bar_latest as (_ & H50 & H200 & _).
  split; [apply one_bar_script|]. by repeat split.
Qed.

(** The rally has no loss, its RSI ends at 100: the momentum is
    Overbought. *)
Lemma momentum_classification_witness :
  momentum (insights_of rally) = Overbought.
Proof.
  destruct rally_latest as (_ & _ & _ & Hr & _).
  destruct (momentum_classification _ _ _ _ rally_script Hr) as [Hover _].
  apply Hover. lra.
Defined.

(** With a single bar the RSI is not defined, and the script reports a
    neutral momentum rather than an undetermined one. *)
Lemma momentum_short_history_counterexample :
  script (price_frame one_bar)
  = Analysis (with_indicators (price_frame one_bar) one_bar)
             (insights_of one_bar) ∧
  latest (with_indicators (price_frame one_bar) one_bar) "RSI" = Some NaN ∧
  momentum (insights_of one_bar) = Neutral ∧
  momentum (insights_of one_bar) ≠ MomentumUndetermined.
Proof.
  destruct one_bar_latest as (_ & _ & _ & Hr & _).
  split; [apply one_bar_script|]. by repeat split.
Qed.

(** The rally ends with the close and both bands at 20: a close equal to
    a band is within the bands. *)
Lemma band_classification_witness :
  band_state (insights_of rally) = WithinBands.
Proof.
  destruct rally_latest as (Hc & _ & _ & _ & Hu & Hl & _).
  destruct (band_classification _ _ _ _ _ _ rally_script Hc Hu Hl)
    as (_ & _ & Hwithin).
  apply Hwithin. lra.
Defined.

(** With a single bar neither band is defined, and the script reports the
    price within the bands rather than an undetermined state. *)
Lemma band_short_history_counterexample :
  script (price_frame one_bar)
  = Analysis (with_indicators (price_frame one_bar) one_bar)
             (insights_of one_bar) ∧
  latest (with_indicators (price_frame one_bar) one_bar) "BB_High" = Some NaN ∧
  latest (with_indicators (price_frame one_bar) one_bar) "BB_Low" = Some NaN ∧
  band_state (insights_of one_bar) = WithinBands ∧
  band_state (insights_of one_bar) ≠ BandUndetermined.
Proof.
  destruct one_bar_latest as (_ & _ & _ & _ & Hu & Hl & _).
  split; [apply one_bar_script|]. by repeat split.
Qed.

End classification_examples.

(* ===================================================================== *)
(** ** The indicator columns *)
(* ===================================================================== *)

Section indicator_columns.

Local Open Scope R_scope.

Lemma indicator_windows_inv name w :
  (name, w) ∈ indicator_windows →
  (name = "SMA50" ∧ w = 50%nat) ∨ (name = "SMA200" ∧ w = 200%nat) ∨
  (name = "RSI" ∧ w = 14%nat) ∨ (name = "BB_High" ∧ w = 20%nat) ∨
  (name = "BB_Low" ∧ w = 20%nat) ∨ (name = "Volatility" ∧ w = 20%nat).
Proof.
  unfold indicator_windows. rewrite !elem_of_cons, elem_of_nil.
  intros [H|[H|[H|[H|[H|[H|[]]]]]]]; injection H as -> ->; tauto.
Qed.

(** C4.  Every indicator column has one cell per bar; with window [w] its
    first [w - 1] cells are undefined and every cell from position [w - 1]
    on is a number. *)
Theorem indicators_aligned df hd ins (cs : list R) name w :
  script df = Analysis hd ins →
  getitem df "Close" = Some (Num <$> cs) →
  (name, w) ∈ indicator_windows →
  ∃ col, getitem hd name = Some col ∧ aligned w (length cs) col.
Proof.
  intros H Hc Hin.
  apply script_analysis_inv in H as (close & Hc' & -> & _).
  rewrite Hc in Hc'. injection Hc' as <-.
  apply indicator_windows_inv in Hin
    as [[-> ->]|[[-> ->]|[[-> ->]|[[-> ->]|[[-> ->]|[-> ->]]]]]].
  - eexists. split; [apply with_indicators_sma50|].
    apply rolling_mean_aligned.
  - eexists. split; [apply with_indicators_sma200|].
    apply rolling_mean_aligned.
  - eexists. split; [apply with_indicators_rsi|].
    rewrite <- (length_fmap Num cs). apply rsi_aligned. lia.
  - eexists. split; [apply with_indicators_bb_high|].
    apply hband_aligned. lia.
  - eexists. split; [apply with_indicators_bb_low|].
    apply lband_aligned. lia.
  - eexists. split; [apply with_indicators_volatility|].
    apply rolling_std_aligned. lia.
Qed.

(** On the 200 bars of the rally the 200-day average has 199 undefined
    cells and a number in the last one. *)
Lemma indicators_aligned_witness :
  ∃ col, getitem (with_indicators (price_frame rally) rally) "SMA200" = Some col ∧
         aligned 200 200 col.
Proof.
  apply (indicators_aligned (price_frame rally) _ _
           (two_level 150 50 10 20) "SMA200" 200%nat rally_script).
  - apply price_frame_close.
  - unfold indicator_windows. rewrite !elem_of_cons. tauto.
Defined.

(** C6.  Every defined cell of the RSI column lies between 0 and 100. *)
Theorem rsi_bounded df hd ins col i r :
  script df = Analysis hd ins →
  getitem hd "RSI" = Some col → col !! i = Some (Num r) →
  0 <= r <= 100.
Proof.
  intros H Hcol Hr.
  apply script_analysis_inv in H as (close & _ & -> & _).
  rewrite with_indicators_rsi in Hcol. injection Hcol as <-.
  apply (rsi_cell_bounded close 14 i r); [lia|done].
Qed.

Lemma rally_rsi_cell : rsi rally 14 !! 199%nat = Some (Num 100).
Proof.
  pose proof (last_cell_lookup (rsi rally 14)) as H.
  rewrite rsi_length, rally_rsi in H. apply H. simpl. lia.
Qed.

(** The last RSI cell of the rally is 100, within the bounds. *)
Lemma rsi_bounded_witness :
  rsi rally 14 !! 199%nat = Some (Num 100) ∧ 0 <= 100 <= 100.
Proof.
  split; [apply rally_rsi_cell|].
  apply (rsi_bounded (price_frame rally) _ _ (rsi rally 14) 199 100
           rally_script).
  - apply with_indicators_rsi.
  - apply rally_rsi_cell.
Defined.

End indicator_columns.

(* ===================================================================== *)
(** ** The RSI of a series without losses *)
(* ===================================================================== *)

Section rsi_edge_cases.

Local Open Scope R_scope.

(** C7, as the library has it.  Where the smoothed loss is zero every
    defined RSI cell is 100, whatever the smoothed gain is: also when the
    gain is zero too.  In particular the RSI of a strictly increasing
    series is 100 wherever it is defined. *)
Theorem rsi_without_losses df hd ins close col i r :
  script df = Analysis hd ins →
  getitem df "Close" = Some close →
  getitem hd "RSI" = Some col → col !! i = Some (Num r) →
  (ewm_mean (1 / INR 14) 14 (down_direction close) !! i = Some (Num 0) →
   r = 100) ∧
  (ewm_mean (1 / INR 14) 14 (up_direction close) !! i = Some (Num 0) →
   ewm_mean (1 / INR 14) 14 (down_direction close) !! i = Some (Num 0) →
   r = 100) ∧
  (strictly_increasing close → r = 100).
Proof.
  intros H Hc Hcol Hr.
  apply script_analysis_inv in H as (close' & Hc' & -> & _).
  rewrite Hc in Hc'. injection Hc' as <-.
  rewrite with_indicators_rsi in Hcol. injection Hcol as <-.
  assert (Hi : (i < length close)%nat).
  { apply lookup_lt_Some in Hr. by rewrite rsi_length in Hr. }
  destruct (rsi_lookup close 14 i Hi) as (u & d & Hu & Hd & Hcell).
  assert (Hzero :
    ewm_mean (1 / INR 14) 14 (down_direction close) !! i = Some (Num 0) →
    r = 100).
  { intros Hdn. rewrite ewm_mean_lookup, Hd in Hdn. simpl in Hdn.
    case_decide; [done|]. injection Hdn as Hd0.
    apply (rsi_zero_loss close 14 i r d); [lia|done|done|done]. }
  split; [done|]. split; [intros _; done|].
  intros Hinc.
  apply (rsi_zero_loss close 14 i r d); [lia|done|done|].
  eapply emadn_no_drop; [|exact Hd].
  by apply strictly_increasing_no_drop.
Qed.

Lemma climb_strictly_increasing : strictly_increasing climb.
Proof.
  intros j a b Ha Hb. unfold climb in Ha, Hb.
  rewrite list_lookup_fmap in Ha, Hb.
  destruct (seq 1 14 !! j) as [k|] eqn:Hk; [|done].
  destruct (seq 1 14 !! S j) as [k'|] eqn:Hk'; [|done].
  simpl in Ha, Hb. injection Ha as <-. injection Hb as <-.
  apply lookup_seq in Hk as [-> _]. apply lookup_seq in Hk' as [-> _].
  apply lt_INR. lia.
Qed.

Lemma climb_script :
  script (price_frame climb)
  = Analysis (with_indicators (price_frame climb) climb) (insights_of climb).
Proof. apply script_price_frame. simpl. lia. Qed.

(** On fourteen rising closes the first defined RSI cell is 100. *)
Lemma rsi_without_losses_witness : rsi climb 14 !! 13%nat = Some (Num 100).
Proof.
  destruct (rsi_defined climb 14 13) as [r Hr]; [lia | simpl; lia | lia |].
  rewrite Hr. do 2 f_equal.
  apply (rsi_without_losses (price_frame climb) _ _ climb (rsi climb 14) 13 r
           climb_script (price_frame_close climb)
           (with_indicators_rsi _ _) Hr).
  apply climb_strictly_increasing.
Defined.

Lemma flat_script :
  script (price_frame flat)
  = Analysis (with_indicators (price_frame flat) flat) (insights_of flat).
Proof. apply script_price_frame. simpl. lia. Qed.

(** On fourteen equal closes the smoothed gain and the smoothed loss are
    both zero, and the RSI cell is 100, not 50. *)
Lemma rsi_flat_series_counterexample :
  script (price_frame flat)
  = Analysis (with_indicators (price_frame flat) flat) (insights_of flat) ∧
  getitem (with_indicators (price_frame flat) flat) "RSI"
  = Some (rsi flat 14) ∧
  ewm_mean (1 / INR 14) 14 (up_direction flat) !! 13%nat = Some (Num 0) ∧
  ewm_mean (1 / INR 14) 14 (down_direction flat) !! 13%nat = Some (Num 0) ∧
  rsi flat 14 !! 13%nat = Some (Num 100) ∧
  Num 100 ≠ Num 50.
Proof.
  assert (Hlen : (13 < length flat)%nat) by (simpl; lia).
  destruct (rsi_lookup flat 14 13 Hlen) as (u & d & Hu & Hd & Hcell).
  assert (u = 0) as ->.
  { eapply emaup_no_rise; [|exact Hu]. apply two_level_no_rise. lra. }
  assert (d = 0) as ->.
  { eapply emadn_no_drop; [|exact Hd]. apply two_level_no_drop. lra. }
  split; [apply flat_script|]. split; [apply with_indicators_rsi|].
  rewrite !ewm_mean_lookup, Hu, Hd, Hcell.
  rewrite !decide_False by lia.
  unfold rsi_cell. rewrite decide_True by done.
  repeat split; try done.
  intros [= Heq]. lra.
Qed.

End rsi_edge_cases.

(* ===================================================================== *)
(** ** Bollinger bands and rolling volatility *)
(* ===================================================================== *)

Section bands_and_volatility.

Local Open Scope R_scope.

Lemma finite_vals_length l xs :
  finite_vals l = Some xs → length xs = length l.
Proof.
  revert xs. induction l as [|[r|] l IH]; intros xs; simpl; [|  |done].
  - by intros [= <-].
  - destruct (finite_vals l) as [ys|]; [|done].
    simpl. intros [= <-]. simpl. by rewrite (IH ys).
Qed.

(** A defined cell of a rolling column is the aggregate of the twenty
    closes that end there. *)
Lemma rolling_cell_inv w agg s i x :
  rolling w agg s !! i = Some (Num x) →
  ∃ xs, finite_vals (window w i s) = Some xs ∧ agg xs = Num x ∧
        (w ≤ S i)%nat ∧ (i < length s)%nat.
Proof.
  intros H. assert (Hi : (i < length s)%nat).
  { apply lookup_lt_Some in H. by rewrite rolling_length in H. }
  rewrite rolling_lookup in H by done. injection H as H.
  case_decide; [done|].
  destruct (finite_vals (window w i s)) as [xs|]; [|done].
  exists xs. repeat split; [done|lia|done].
Qed.

Lemma window_full w i (s : list float) :
  (w ≤ S i)%nat → (i < length s)%nat → length (window w i s) = w.
Proof. intros Hw Hi. unfold window. rewrite length_take, length_drop. lia. Qed.

(** The population and the sample deviation of the same twenty values. *)
Lemma std_population_vs_sample xs s0 s1 :
  length xs = 20%nat → std 0 xs = Num s0 → std 1 xs = Num s1 →
  s0 = sqrt (19 / 20) * s1.
Proof.
  intros Hlen. unfold std. rewrite Hlen.
  rewrite !decide_False by lia.
  rewrite !INR_IZR_INZ. cbv [Z.of_nat Pos.of_succ_nat Pos.succ].
  intros Hs0 Hs1.
  assert (s0 = sqrt (sqdev xs / (20 - 0))) as -> by congruence.
  assert (s1 = sqrt (sqdev xs / (20 - 1))) as -> by congruence.
  pose proof (sqdev_nonneg xs) as Hq.
  rewrite <- sqrt_mult; [f_equal; field| lra |].
  apply Rle_mult_inv_pos; lra.
Qed.

(** C3, as the libraries have it.  The bands take the population
    deviation of the twenty closes ([ddof=0]) and the Volatility column
    their sample deviation ([ddof=1]); where both are defined the upper
    band exceeds the 20-day average by [2 * sqrt (19/20)] times the
    volatility. *)
Theorem bands_versus_volatility df hd ins close hb vol i u m v :
  script df = Analysis hd ins →
  getitem df "Close" = Some close →
  getitem hd "BB_High" = Some hb → getitem hd "Volatility" = Some vol →
  hb !! i = Some (Num u) →
  sma_indicator close 20 !! i = Some (Num m) →
  vol !! i = Some (Num v) →
  u - m = 2 * (sqrt (19 / 20) * v).
Proof.
  intros H Hc Hhb Hvol Hu Hm Hv.
  apply script_analysis_inv in H as (close' & Hc' & -> & _).
  rewrite Hc in Hc'. injection Hc' as <-.
  rewrite with_indicators_bb_high in Hhb. injection Hhb as <-.
  rewrite with_indicators_volatility in Hvol. injection Hvol as <-.
  unfold bollinger, hband in Hu.
  apply lookup_zip_with_Some in Hu as (m' & ks & Hu & Hm' & Hks).
  unfold sma_indicator in Hm. rewrite Hm in Hm'. injection Hm' as <-.
  rewrite list_lookup_fmap in Hks.
  destruct (rolling_std 20 0 close !! i) as [sd|] eqn:Hs0; [|done].
  simpl in Hks. injection Hks as <-.
  destruct sd as [s0|]; [|done]. simpl in Hu. injection Hu as ->.
  apply rolling_cell_inv in Hs0 as (xs & Hxs & Hs0 & Hw & Hi).
  apply rolling_cell_inv in Hv as (xs' & Hxs' & Hv & _ & _).
  rewrite Hxs in Hxs'. injection Hxs' as <-.
  assert (Hlen : length xs = 20%nat).
  { rewrite (finite_vals_length _ _ Hxs). by apply window_full. }
  rewrite (std_population_vs_sample xs s0 v Hlen Hs0 Hv). lra.
Qed.

Lemma swing_script :
  script (price_frame swing)
  = Analysis (with_indicators (price_frame swing) swing) (insights_of swing).
Proof. apply script_price_frame. simpl. lia. Qed.

Lemma swing_mean : mean (two_level 10 10 1 3) = 2.
Proof.
  unfold mean. rewrite two_level_length. unfold two_level.
  rewrite Rsum_app, !Rsum_replicate, !INR_IZR_INZ.
  cbv [Z.of_nat Pos.of_succ_nat Pos.succ Nat.add]. lra.
Qed.

Lemma swing_sqdev : sqdev (two_level 10 10 1 3) = 20.
Proof.
  unfold sqdev. rewrite swing_mean. unfold two_level.
  rewrite fmap_app, !fmap_replicate, Rsum_app, !Rsum_replicate.
  rewrite !INR_IZR_INZ. cbv [Z.of_nat Pos.of_succ_nat Pos.succ]. lra.
Qed.

(** The last row of the swing: average 2, upper band 4, volatility
    [sqrt (20/19)]. *)
Lemma swing_cells :
  sma_indicator swing 20 !! 19%nat = Some (Num 2) ∧
  hband (bollinger swing 20 2) !! 19%nat = Some (Num 4) ∧
  rolling_std 20 1 swing !! 19%nat = Some (Num (sqrt (20 / 19))).
Proof.
  assert (Hm : rolling_mean 20 swing !! 19%nat = Some (Num 2)).
  { unfold rolling_mean, swing.
    rewrite rolling_ready by (rewrite ?two_level_length; lia).
    do 2 f_equal. etransitivity; [|apply swing_mean]. f_equal. }
  assert (Hs : rolling_std 20 0 swing !! 19%nat = Some (Num 1)).
  { unfold rolling_std, swing.
    rewrite rolling_ready by (rewrite ?two_level_length; lia).
    f_equal.
    transitivity (std 0 (two_level 10 10 1 3)); [f_equal|].
    unfold std. rewrite two_level_length, decide_False by lia.
    rewrite swing_sqdev, !INR_IZR_INZ.
    cbv [Z.of_nat Pos.of_succ_nat Pos.succ Nat.add].
    f_equal. rewrite <- sqrt_1. f_equal. lra. }
  split; [exact Hm|]. split.
  - unfold bollinger, hband.
    rewrite lookup_zip_with, list_lookup_fmap, Hm, Hs. simpl.
    do 2 f_equal. lra.
  - unfold rolling_std, swing.
    rewrite rolling_ready by (rewrite ?two_level_length; lia).
    f_equal.
    transitivity (std 1 (two_level 10 10 1 3)); [f_equal|].
    unfold std. rewrite two_level_length, decide_False by lia.
    rewrite swing_sqdev, !INR_IZR_INZ.
    cbv [Z.of_nat Pos.of_succ_nat Pos.succ Nat.add].
    do 2 f_equal. lra.
Qed.

Lemma sqrt_20_19_not_1 : sqrt (20 / 19) ≠ 1.
Proof.
  intros H. assert (Hsq : sqrt (20 / 19) * sqrt (20 / 19) = 20 / 19).
  { apply sqrt_sqrt. lra. }
  rewrite H in Hsq. lra.
Qed.

(** On the swing the upper band is 2 above the average, while twice the
    volatility is [2 * sqrt (20/19)]. *)
Lemma bands_versus_volatility_counterexample :
  script (price_frame swing)
  = Analysis (with_indicators (price_frame swing) swing) (insights_of swing) ∧
  getitem (with_indicators (price_frame swing) swing) "BB_High"
  = Some (hband (bollinger swing 20 2)) ∧
  getitem (with_indicators (price_frame swing) swing) "Volatility"
  = Some (rolling_std 20 1 swing) ∧
  sma_indicator swing 20 !! 19%nat = Some (Num 2) ∧
  hband (bollinger swing 20 2) !! 19%nat = Some (Num 4) ∧
  rolling_std 20 1 swing !! 19%nat = Some (Num (sqrt (20 / 19))) ∧
  4 - 2 ≠ 2 * sqrt (20 / 19).
Proof.
  destruct swing_cells as (Hm & Hu & Hv).
  split; [apply swing_script|].
  split; [apply with_indicators_bb_high|].
  split; [apply with_indicators_volatility|].
  repeat split; try done.
  intros H. apply sqrt_20_19_not_1. lra.
Qed.

(** The relation of the two deviations, on the last row of the swing. *)
Lemma bands_versus_volatility_witness :
  4 - 2 = 2 * (sqrt (19 / 20) * sqrt (20 / 19)).
Proof.
  destruct swing_cells as (Hm & Hu & Hv).
  apply (bands_versus_volatility (price_frame swing) _ _ swing
           (hband (bollinger swing 20 2)) (rolling_std 20 1 swing) 19 4 2
           (sqrt (20 / 19)) swing_script (price_frame_close swing)
           (with_indicators_bb_high _ _) (with_indicators_volatility _ _)
           Hu Hm Hv).
Defined.

Lemma spec_total_Rsum xs : Rsum xs = spec_total xs.
Proof.
  induction xs as [|x xs IH]; [reflexivity|].
  unfold Rsum in *. simpl. by rewrite IH.
Qed.

Lemma spec_mean_mean xs : mean xs = spec_mean xs.
Proof. unfold mean, spec_mean. by rewrite spec_total_Rsum. Qed.

Lemma spec_squared_distances_Rsum m xs :
  Rsum ((λ x, (x - m) * (x - m)) <$> xs) = spec_squared_distances m xs.
Proof.
  induction xs as [|x xs IH]; [reflexivity|].
  unfold Rsum in *. csimpl. by rewrite IH.
Qed.

Lemma spec_squared_distances_nonneg m xs : 0 <= spec_squared_distances m xs.
Proof.
  induction xs as [|x xs IH]; simpl; [lra|].
  pose proof (Rle_0_sqr (x - m)) as Hsq. unfold Rsqr in Hsq. lra.
Qed.

(** The squared distances to any centre, from the two totals. *)
Lemma spec_squared_distances_expand m xs :
  spec_squared_distances m xs
  = spec_total_of_squares xs - 2 * m * spec_total xs
    + INR (length xs) * (m * m).
Proof.
  induction xs as [|x xs IH]; [simpl; lra|].
  rewrite length_cons, S_INR. simpl. rewrite IH. lra.
Qed.

(** What [.std()] with the default [ddof=1] computes is the sample
    standard deviation. *)
Lemma std_sample_spec xs :
  (1 < length xs)%nat → std 1 xs = Num (spec_sample_std xs).
Proof.
  intros Hlen. unfold std, spec_sample_std.
  rewrite decide_False by lia.
  unfold sqdev. by rewrite spec_squared_distances_Rsum, spec_mean_mean.
Qed.

(** Over [n - 1], the squared sample deviation is the total of the squares
    less the squared total over [n]. *)
Lemma spec_sample_std_square xs :
  (1 < length xs)%nat →
  (INR (length xs) - 1) * (spec_sample_std xs * spec_sample_std xs)
  = spec_total_of_squares xs
    - spec_total xs * spec_total xs / INR (length xs).
Proof.
  intros Hlen.
  assert (Hn : 1 < INR (length xs)) by (apply (lt_INR 1); lia).
  unfold spec_sample_std. rewrite sqrt_sqrt.
  - rewrite spec_squared_distances_expand. unfold spec_mean. field. lra.
  - apply Rle_mult_inv_pos; [apply spec_squared_distances_nonneg | lra].
Qed.

(** C10.  A defined Volatility cell is the sample standard deviation of
    the twenty closes that end there: nineteen times its square is the
    total of the squared closes less a twentieth of their squared total
    (divisor 20 - 1, not 20); over twenty equal closes it is exactly 0. *)
Theorem volatility_sample_std df hd ins (cs : list R) vol i xs :
  script df = Analysis hd ins →
  getitem df "Close" = Some (Num <$> cs) →
  getitem hd "Volatility" = Some vol →
  (i < length cs)%nat → (20 ≤ S i)%nat →
  take 20 (drop (S i - 20) cs) = xs →
  vol !! i = Some (Num (spec_sample_std xs)) ∧
  19 * (spec_sample_std xs * spec_sample_std xs)
  = spec_total_of_squares xs - spec_total xs * spec_total xs / 20 ∧
  (∀ c, xs = replicate 20 c → vol !! i = Some (Num 0)).
Proof.
  intros H Hc Hvol Hi Hw Hxs.
  apply script_analysis_inv in H as (close & Hc' & -> & _).
  rewrite Hc in Hc'. injection Hc' as <-.
  rewrite with_indicators_volatility in Hvol. injection Hvol as <-.
  assert (Hlen : length xs = 20%nat).
  { rewrite <- Hxs. by apply window_length. }
  unfold rolling_std. rewrite rolling_ready by done. rewrite Hxs.
  split; [|split].
  - f_equal. apply std_sample_spec. lia.
  - pose proof (spec_sample_std_square xs) as Hsq.
    rewrite Hlen, INR_IZR_INZ in Hsq.
    cbv [Z.of_nat Pos.of_succ_nat Pos.succ] in Hsq.
    replace (19 : R) with (20 - 1 : R) by lra. apply Hsq. lia.
  - intros c ->. by rewrite std_replicate by lia.
Qed.

Lemma swing_spec_sample_std :
  spec_sample_std (two_level 10 10 1 3) = sqrt (20 / 19).
Proof.
  assert (Hm : spec_mean (two_level 10 10 1 3) = 2).
  { unfold spec_mean. rewrite two_level_length, INR_IZR_INZ.
    cbv [Z.of_nat Pos.of_succ_nat Pos.succ Nat.add].
    unfold two_level. simpl. lra. }
  unfold spec_sample_std. rewrite Hm, two_level_length, INR_IZR_INZ.
  cbv [Z.of_nat Pos.of_succ_nat Pos.succ Nat.add].
  f_equal. unfold two_level. simpl. lra.
Qed.

(** The twenty closes of the swing, ten at 1 and ten at 3, have squared
    distances to their mean that add up to 20: the volatility of the last
    row is [sqrt (20/19)] (with the divisor 20 it would be 1). *)
Lemma volatility_sample_std_witness :
  rolling_std 20 1 swing !! 19%nat = Some (Num (sqrt (20 / 19))).
Proof.
  destruct (volatility_sample_std (price_frame swing)
              (with_indicators (price_frame swing) swing) (insights_of swing)
              (two_level 10 10 1 3) (rolling_std 20 1 swing) 19
              (two_level 10 10 1 3)
              swing_script (price_frame_close swing)
              (with_indicators_volatility _ _)) as [Hcell _].
  - rewrite two_level_length. lia.
  - lia.
  - reflexivity.
  - by rewrite <- swing_spec_sample_std.
Defined.

End bands_and_volatility.

(* ===================================================================== *)
(** ** What the script does to the fetched frame *)
(* ===================================================================== *)

Section frame_effects.

(** C8, as the script has it.  The script writes its six indicator columns
    into the fetched frame itself; the index, the Close column and every
    other column that is not one of the six are left as they were. *)
Theorem price_columns_preserved df hd ins :
  script df = Analysis hd ins →
  index hd = index df ∧
  getitem hd "Close" = getitem df "Close" ∧
  (∀ name, name ∉ indicator_names → getitem hd name = getitem df name) ∧
  (∀ name, name ∈ indicator_names → is_Some (getitem hd name)).
Proof.
  intros H. apply script_analysis_inv in H as (close & Hc & -> & _).
  split; [apply with_indicators_index|].
  split; [by apply with_indicators_other|].
  split.
  - intros name Hname. unfold indicator_names in Hname. simpl in Hname.
    rewrite !not_elem_of_cons in Hname.
    destruct Hname as (? & ? & ? & ? & ? & ? & _).
    by apply with_indicators_other.
  - intros name Hname. unfold indicator_names in Hname. simpl in Hname.
    rewrite !elem_of_cons, elem_of_nil in Hname.
    destruct Hname as [->|[->|[->|[->|[->|[->|[]]]]]]].
    + rewrite with_indicators_sma50. eauto.
    + rewrite with_indicators_sma200. eauto.
    + rewrite with_indicators_rsi. eauto.
    + rewrite with_indicators_bb_high. eauto.
    + rewrite with_indicators_bb_low. eauto.
    + rewrite with_indicators_volatility. eauto.
Qed.

(** After the analysis of the one-bar frame its Close column is the one
    that was fetched. *)
Lemma price_columns_preserved_witness :
  getitem (with_indicators (price_frame one_bar) one_bar) "Close"
  = Some one_bar.
Proof.
  destruct (price_columns_preserved _ _ _ one_bar_script) as (_ & Hc & _).
  rewrite Hc. apply price_frame_close.
Defined.

(** The one-bar frame has no SMA50 column when it is fetched and has one
    after the analysis: the frame is not what it was. *)
Lemma frame_mutated_counterexample :
  script (price_frame one_bar)
  = Analysis (with_indicators (price_frame one_bar) one_bar)
             (insights_of one_bar) ∧
  getitem (price_frame one_bar) "SMA50" = None ∧
  getitem (with_indicators (price_frame one_bar) one_bar) "SMA50"
  = Some [NaN] ∧
  with_indicators (price_frame one_bar) one_bar ≠ price_frame one_bar.
Proof.
  assert (Hnone : getitem (price_frame one_bar) "SMA50" = None).
  { unfold getitem, price_frame; simpl. by apply lookup_singleton_ne. }
  assert (Hsome : getitem (with_indicators (price_frame one_bar) one_bar)
                    "SMA50" = Some [NaN]).
  { by rewrite with_indicators_sma50. }
  split; [apply one_bar_script|]. split; [done|]. split; [done|].
  intros Heq. rewrite Heq, Hnone in Hsome. done.
Qed.

(** C9.  An empty frame gets the message of line 153 and no analysis; a
    frame with at least one bar and its Close column gets the analysis. *)
Theorem empty_history_rejected :
  (∀ df, empty df = true → script df = NoHistoricalData) ∧
  (∀ df close,
     index df ≠ [] → getitem df "Close" = Some close →
     length close = length (index df) →
     ∃ hd ins, script df = Analysis hd ins).
Proof.
  split.
  - intros df He. unfold script. by rewrite He.
  - intros df close Hi Hc Hlen.
    exists (with_indicators df close), (insights_of close).
    apply script_analysis; [by apply (empty_false _ close)|done|].
    rewrite Hlen. destruct (index df); [done|simpl; lia].
Qed.

(** The frame without bars is rejected, the one-bar frame is analysed. *)
Lemma empty_history_rejected_witness :
  script (price_frame []) = NoHistoricalData ∧
  ∃ hd ins, script (price_frame one_bar) = Analysis hd ins.
Proof.
  destruct empty_history_rejected as [Hempty Hbars]. split.
  - apply Hempty. reflexivity.
  - apply (Hbars (price_frame one_bar) one_bar);
      [done | apply price_frame_close | reflexivity].
Defined.

End frame_effects.

(* ===================================================================== *)
(** ** Further properties: the frame through the script *)
(* ===================================================================== *)

Section frame_through_script.

Lemma empty_false_index df : empty df = false → index df ≠ [].
Proof.
  unfold empty. intros He Hi.
  rewrite (bool_decide_eq_true_2 _ Hi) in He. done.
Qed.

Lemma empty_false_columns df :
  index df ≠ [] → columns df ≠ ∅ → empty df = false.
Proof.
  intros Hi Hc. unfold empty.
  by rewrite (bool_decide_eq_false_2 _ Hi), (bool_decide_eq_false_2 _ Hc).
Qed.

Lemma script_analysis_nonempty df hd ins :
  script df = Analysis hd ins → empty df = false.
Proof. unfold script. by destruct (empty df). Qed.

Lemma rectangular_close df close :
  rectangular df → empty df = false → getitem df "Close" = Some close →
  (0 < length close)%nat.
Proof.
  intros Hrect He Hc. rewrite (Hrect _ _ Hc).
  apply empty_false_index in He. destruct (index df); [done|simpl; lia].
Qed.

(** X1.  On a frame with bars whose columns all have one cell per bar, the
    body of the [try] raises exactly when the Close column is missing; the
    page then shows the message of line 156. *)
Theorem missing_close_is_the_error df :
  rectangular df →
  script df = ErrorOccurred ↔ empty df = false ∧ getitem df "Close" = None.
Proof.
  intros Hrect. split.
  - intros H. destruct (empty df) eqn:He.
    { unfold script in H. by rewrite He in H. }
    split; [done|].
    destruct (getitem df "Close") as [close|] eqn:Hc; [|done].
    rewrite (script_analysis df close He Hc) in H; [done|].
    by apply (rectangular_close df).
  - intros [He Hc]. unfold script.
    by rewrite He, (technical_indicators_keyerror _ Hc).
Qed.

Lemma no_close_frame_rectangular : rectangular no_close_frame.
Proof.
  intros name col. unfold getitem, no_close_frame; simpl.
  intros H. apply lookup_singleton_Some in H as [_ <-]. reflexivity.
Qed.

(** A one-bar frame that has an Open column only gets the error message. *)
Lemma missing_close_is_the_error_witness :
  script no_close_frame = ErrorOccurred.
Proof.
  apply (missing_close_is_the_error no_close_frame no_close_frame_rectangular).
  split.
  - apply empty_false_columns; [done|]. apply map_non_empty_singleton.
  - unfold getitem, no_close_frame; simpl. by apply lookup_singleton_ne.
Defined.

(** X2.  The script keeps the frame rectangular: when every fetched column
    has one cell per bar, so has every column after the analysis, the six
    written ones included. *)
Theorem rectangular_preserved df hd ins :
  rectangular df → script df = Analysis hd ins → rectangular hd.
Proof.
  intros Hrect H.
  apply script_analysis_inv in H as (close & Hc & -> & _).
  pose proof (Hrect _ _ Hc) as Hlen.
  intros name col Hcol. rewrite with_indicators_index, <- Hlen.
  destruct (decide (name = "SMA50")) as [->|];
    [rewrite with_indicators_sma50 in Hcol; injection Hcol as <-;
     apply sma_indicator_length|].
  destruct (decide (name = "SMA200")) as [->|];
    [rewrite with_indicators_sma200 in Hcol; injection Hcol as <-;
     apply sma_indicator_length|].
  destruct (decide (name = "RSI")) as [->|];
    [rewrite with_indicators_rsi in Hcol; injection Hcol as <-;
     apply rsi_length|].
  destruct (decide (name = "BB_High")) as [->|];
    [rewrite with_indicators_bb_high in Hcol; injection Hcol as <-;
     apply hband_length|].
  destruct (decide (name = "BB_Low")) as [->|];
    [rewrite with_indicators_bb_low in Hcol; injection Hcol as <-;
     apply lband_length|].
  destruct (decide (name = "Volatility")) as [->|];
    [rewrite with_indicators_volatility in Hcol; injection Hcol as <-;
     apply rolling_std_length|].
  rewrite with_indicators_other in Hcol by done.
  rewrite Hlen. by apply (Hrect name).
Qed.

Lemma price_frame_rectangular close : rectangular (price_frame close).
Proof.
  intros name col. unfold getitem, price_frame; simpl.
  intros H. apply lookup_singleton_Some in H as [_ <-].
  by rewrite length_seq.
Qed.

(** After the analysis of the rally every column has 200 cells. *)
Lemma rectangular_preserved_witness :
  rectangular (with_indicators (price_frame rally) rally).
Proof.
  apply (rectangular_preserved (price_frame rally) _ (insights_of rally)).
  - apply price_frame_rectangular.
  - apply script_price_frame. simpl. lia.
Defined.

Lemma setitem_same df name col :
  getitem df name = Some col → setitem df name col = df.
Proof.
  destruct df as [idx cols]. unfold getitem, setitem; simpl.
  intros H. by rewrite (insert_id _ _ _ H).
Qed.

Lemma with_indicators_again df close :
  with_indicators (with_indicators df close) close = with_indicators df close.
Proof.
  pose proof (with_indicators_sma50 df close) as H1.
  pose proof (with_indicators_sma200 df close) as H2.
  pose proof (with_indicators_rsi df close) as H3.
  pose proof (with_indicators_bb_high df close) as H4.
  pose proof (with_indicators_bb_low df close) as H5.
  pose proof (with_indicators_volatility df close) as H6.
  remember (with_indicators df close) as hd eqn:Hhd. clear Hhd.
  unfold with_indicators.
  by rewrite (setitem_same _ _ _ H1), (setitem_same _ _ _ H2),
    (setitem_same _ _ _ H3), (setitem_same _ _ _ H4),
    (setitem_same _ _ _ H5), (setitem_same _ _ _ H6).
Qed.

(** X3.  Running the script again on the frame it has written gives the
    same frame and the same insights: the indicator columns are computed
    from Close alone and overwrite themselves with equal values. *)
Theorem script_idempotent df hd ins :
  script df = Analysis hd ins → script hd = Analysis hd ins.
Proof.
  intros H. pose proof (script_analysis_nonempty _ _ _ H) as He.
  apply script_analysis_inv in H as (close & Hc & -> & Hk).
  pose proof (with_indicators_close _ _ Hc) as Hc'.
  unfold script.
  rewrite (empty_false _ close); [|exact (empty_false_index df He)|done].
  rewrite (technical_indicators_close _ _ Hc'), with_indicators_again.
  by rewrite Hk.
Qed.

(** Analysing the written frame of the rally once more changes nothing. *)
Lemma script_idempotent_witness :
  script (with_indicators (price_frame rally) rally)
  = Analysis (with_indicators (price_frame rally) rally) (insights_of rally).
Proof.
  apply (script_idempotent (price_frame rally)).
  apply script_price_frame. simpl. lia.
Defined.

(** X4.  After line 72 the three charts of lines 76, 84 and 92 find all
    their columns, and every charted series has one point per bar. *)
Theorem charts_find_their_columns df hd ins close :
  script df = Analysis hd ins → getitem df "Close" = Some close →
  ∃ series, chart_series hd = Some series ∧
            length series = 7%nat ∧
            Forall (λ s, length s = length close) series.
Proof.
  intros H Hc.
  apply script_analysis_inv in H as (close' & Hc' & -> & _).
  rewrite Hc in Hc'. injection Hc' as <-.
  exists [close; sma_indicator close 50; sma_indicator close 200;
          rsi close 14;
          close; hband (bollinger close 20 2); lband (bollinger close 20 2)].
  split; [|split; [done|]].
  - unfold chart_series, select.
    rewrite (mapM_Some_2 _ ["Close"; "SMA50"; "SMA200"]
               [close; sma_indicator close 50; sma_indicator close 200]).
    2:{ repeat constructor;
          [by apply with_indicators_close | apply with_indicators_sma50
          | apply with_indicators_sma200]. }
    rewrite with_indicators_rsi.
    rewrite (mapM_Some_2 _ ["Close"; "BB_High"; "BB_Low"]
               [close; hband (bollinger close 20 2);
                lband (bollinger close 20 2)]).
    2:{ repeat constructor;
          [by apply with_indicators_close | apply with_indicators_bb_high
          | apply with_indicators_bb_low]. }
    reflexivity.
  - repeat constructor;
      auto using sma_indicator_length, rsi_length, hband_length, lband_length.
Qed.

(** The charts of the one-bar frame get seven series. *)
Lemma charts_find_their_columns_witness :
  ∃ series, chart_series (with_indicators (price_frame one_bar) one_bar)
            = Some series ∧
            length series = 7%nat ∧
            Forall (λ s, length s = length one_bar) series.
Proof.
  apply (charts_find_their_columns (price_frame one_bar) _
           (insights_of one_bar) one_bar).
  - apply script_price_frame. simpl. lia.
  - apply price_frame_close.
Defined.

End frame_through_script.

(* ===================================================================== *)
(** ** Further properties: averages, bands and volatility *)
(* ===================================================================== *)

Section averages_and_bands.

Local Open Scope R_scope.

(** Both bands of a row, from the average and the deviation there. *)
Lemma band_cells_inv close w k i u :
  hband (bollinger close w k) !! i = Some (Num u) →
  ∃ m s, rolling_mean w close !! i = Some (Num m) ∧
         rolling_std w 0 close !! i = Some (Num s) ∧
         u = m + k * s ∧
         lband (bollinger close w k) !! i = Some (Num (m - k * s)).
Proof.
  unfold bollinger, hband, lband. intros Hu.
  apply lookup_zip_with_Some in Hu as (m & ks & Hu & Hm & Hks).
  rewrite list_lookup_fmap in Hks.
  destruct (rolling_std w 0 close !! i) as [sd|] eqn:Hsd; [|done].
  simpl in Hks. injection Hks as <-.
  destruct m as [m|], sd as [s|]; try done.
  simpl in Hu. injection Hu as ->.
  exists m, s. repeat split; try done.
  by rewrite lookup_zip_with, list_lookup_fmap, Hm, Hsd.
Qed.

(** X5.  Wherever the bands are defined, the 20-day average lies between
    the lower and the upper band, at the same distance from both. *)
Theorem bands_bracket_average df hd ins close hb lb i u l m :
  script df = Analysis hd ins → getitem df "Close" = Some close →
  getitem hd "BB_High" = Some hb → getitem hd "BB_Low" = Some lb →
  hb !! i = Some (Num u) → lb !! i = Some (Num l) →
  sma_indicator close 20 !! i = Some (Num m) →
  l <= m <= u ∧ u - m = m - l.
Proof.
  intros H Hc Hhb Hlb Hu Hl Hm.
  apply script_analysis_inv in H as (close' & Hc' & -> & _).
  rewrite Hc in Hc'. injection Hc' as <-.
  rewrite with_indicators_bb_high in Hhb. injection Hhb as <-.
  rewrite with_indicators_bb_low in Hlb. injection Hlb as <-.
  apply band_cells_inv in Hu as (m' & s & Hm' & Hs & -> & Hl').
  unfold sma_indicator in Hm. rewrite Hm in Hm'. injection Hm' as <-.
  pose proof (eq_trans (eq_sym Hl) Hl') as El. injection El as ->.
  apply rolling_std_nonneg in Hs. lra.
Qed.

Lemma swing_lower_band : lband (bollinger swing 20 2) !! 19%nat = Some (Num 0).
Proof.
  destruct swing_cells as (Hm & Hu & _).
  apply band_cells_inv in Hu as (m & s & Hm' & _ & Hu & Hl).
  unfold sma_indicator in Hm. rewrite Hm in Hm'. injection Hm' as <-.
  rewrite Hl. do 2 f_equal. lra.
Qed.

(** On the last row of the swing the bands are 0 and 4 around the average
    2. *)
Lemma bands_bracket_average_witness : 0 <= 2 <= 4 ∧ 4 - 2 = 2 - 0.
Proof.
  destruct swing_cells as (Hm & Hu & _).
  apply (bands_bracket_average (price_frame swing)
           (with_indicators (price_frame swing) swing) (insights_of swing) swing
           (hband (bollinger swing 20 2)) (lband (bollinger swing 20 2))
           19 4 0 2).
  - apply script_price_frame. simpl. lia.
  - apply price_frame_close.
  - apply with_indicators_bb_high.
  - apply with_indicators_bb_low.
  - exact Hu.
  - apply swing_lower_band.
  - exact Hm.
Defined.

(** X6.  No defined cell of the Volatility column is negative, and
    neither is the volatility the page reports. *)
Theorem volatility_nonnegative df hd ins :
  script df = Analysis hd ins →
  (∀ vol i v, getitem hd "Volatility" = Some vol →
              vol !! i = Some (Num v) → 0 <= v) ∧
  (∀ v, latest_volatility ins = Num v → 0 <= v).
Proof.
  intros H.
  pose proof (script_insights _ _ _ H)
    as (c & s50 & s200 & r & v' & u & l & _ & _ & _ & _ & Hv' & _ & _ & ->).
  apply script_analysis_inv in H as (close & _ & -> & _).
  split.
  - intros vol i v Hvol Hv.
    rewrite with_indicators_volatility in Hvol. injection Hvol as <-.
    by apply rolling_std_nonneg in Hv.
  - simpl. intros v ->. unfold latest in Hv'.
    rewrite with_indicators_volatility in Hv'.
    cbn [mbind option_bind] in Hv'. rewrite last_lookup in Hv'.
    by apply rolling_std_nonneg in Hv'.
Qed.

(** The volatility of the swing, [sqrt (20/19)], is not negative. *)
Lemma volatility_nonnegative_witness : 0 <= sqrt (20 / 19).
Proof.
  destruct swing_cells as (_ & _ & Hv).
  destruct (volatility_nonnegative (price_frame swing)
              (with_indicators (price_frame swing) swing) (insights_of swing))
    as [Hcells _].
  - apply script_price_frame. simpl. lia.
  - apply (Hcells (rolling_std 20 1 swing) 19%nat);
      [apply with_indicators_volatility | exact Hv].
Defined.

Lemma finite_vals_elem_of l xs x :
  finite_vals l = Some xs → x ∈ xs → Num x ∈ l.
Proof.
  revert xs. induction l as [|[r|] l IH]; intros xs; simpl; [| |done].
  - intros [= <-] Hx. by apply elem_of_nil in Hx.
  - destruct (finite_vals l) as [ys|]; [|done].
    simpl. intros [= <-] Hx. apply elem_of_cons in Hx as [->|Hx].
    + apply elem_of_cons. by left.
    + apply elem_of_cons. right. by apply (IH ys).
Qed.

Lemma window_elem_of w i s x : x ∈ window w i s → x ∈ s.
Proof.
  unfold window. intros Hx.
  apply (subseteq_drop (S i - w) s). by apply (subseteq_take w).
Qed.

Lemma Rsum_bounds lo hi xs :
  Forall (λ x, lo <= x <= hi) xs →
  INR (length xs) * lo <= Rsum xs <= INR (length xs) * hi.
Proof.
  induction 1 as [|x xs Hx _ IH]; [simpl; unfold Rsum; simpl; lra|].
  rewrite length_cons, S_INR. unfold Rsum in *. simpl. lra.
Qed.

Lemma mean_bounds lo hi xs :
  (0 < length xs)%nat → Forall (λ x, lo <= x <= hi) xs →
  lo <= mean xs <= hi.
Proof.
  intros Hlen Hxs. pose proof (Rsum_bounds lo hi xs Hxs) as [Hlo Hhi].
  assert (Hn : 0 < INR (length xs)) by (apply lt_0_INR; lia).
  unfold mean. split.
  - apply (Rmult_le_reg_r (INR (length xs))); [done|].
    unfold Rdiv. rewrite Rmult_assoc, Rinv_l by lra. lra.
  - apply (Rmult_le_reg_r (INR (length xs))); [done|].
    unfold Rdiv. rewrite Rmult_assoc, Rinv_l by lra. lra.
Qed.

Lemma rolling_mean_bounds lo hi w close i m :
  (0 < w)%nat →
  (∀ j x, close !! j = Some (Num x) → lo <= x <= hi) →
  rolling_mean w close !! i = Some (Num m) → lo <= m <= hi.
Proof.
  intros Hw Hb Hm. unfold rolling_mean in Hm.
  apply rolling_cell_inv in Hm as (xs & Hxs & Hm & Hwi & Hi).
  injection Hm as <-.
  apply mean_bounds.
  - rewrite (finite_vals_length _ _ Hxs), window_full by done. lia.
  - apply Forall_forall. intros x Hx.
    apply (finite_vals_elem_of _ _ _ Hxs), window_elem_of in Hx.
    apply list_elem_of_lookup in Hx as [j Hj]. by apply (Hb j).
Qed.

(** X7.  A moving average never leaves the range of the closes: when every
    close lies between [lo] and [hi], so does every defined cell of the
    SMA50 and of the SMA200 column. *)
Theorem sma_within_close_range df hd ins close lo hi name col i m :
  script df = Analysis hd ins → getitem df "Close" = Some close →
  (∀ j x, close !! j = Some (Num x) → lo <= x <= hi) →
  name ∈ ["SMA50"; "SMA200"] →
  getitem hd name = Some col → col !! i = Some (Num m) →
  lo <= m <= hi.
Proof.
  intros H Hc Hb Hname Hcol Hm.
  apply script_analysis_inv in H as (close' & Hc' & -> & _).
  rewrite Hc in Hc'. injection Hc' as <-.
  rewrite !elem_of_cons, elem_of_nil in Hname.
  destruct Hname as [->|[->|[]]].
  - rewrite with_indicators_sma50 in Hcol. injection Hcol as <-.
    apply (rolling_mean_bounds lo hi 50 close i m); [lia|done|done].
  - rewrite with_indicators_sma200 in Hcol. injection Hcol as <-.
    apply (rolling_mean_bounds lo hi 200 close i m); [lia|done|done].
Qed.

Lemma rally_close_range j x :
  rally !! j = Some (Num x) → 10 <= x <= 20.
Proof.
  unfold rally. rewrite list_lookup_fmap. intros H.
  destruct (two_level 150 50 10 20 !! j) as [y|] eqn:Hy; [|done].
  simpl in H. injection H as <-.
  apply two_level_lookup in Hy as [[_ ->]|[_ ->]]; lra.
Qed.

(** The closes of the rally lie between 10 and 20, and so does its last
    200-day average, 12.5. *)
Lemma sma_within_close_range_witness : 10 <= 25 / 2 <= 20.
Proof.
  apply (sma_within_close_range (price_frame rally)
           (with_indicators (price_frame rally) rally) (insights_of rally)
           rally 10 20 "SMA200" (sma_indicator rally 200) 199 (25 / 2)).
  - apply script_price_frame. simpl. lia.
  - apply price_frame_close.
  - apply rally_close_range.
  - rewrite !elem_of_cons. tauto.
  - apply with_indicators_sma200.
  - pose proof (last_cell_lookup (sma_indicator rally 200)) as Hl.
    rewrite sma_indicator_length, rally_sma200 in Hl. apply Hl. simpl. lia.
Defined.

End averages_and_bands.

(* ===================================================================== *)
(** ** Further properties: short histories and missing closes *)
(* ===================================================================== *)

Section short_histories.

Local Open Scope R_scope.

(** What an analysis is made of, given the Close column. *)
Lemma script_analysis_of_close df hd ins close :
  script df = Analysis hd ins → getitem df "Close" = Some close →
  (0 < length close)%nat ∧ hd = with_indicators df close ∧
  ins = insights_of close.
Proof.
  intros H Hc.
  apply script_analysis_inv in H as (close' & Hc' & -> & Hk).
  rewrite Hc in Hc'. injection Hc' as <-.
  destruct close as [|x close].
  - unfold key_insights, latest in Hk.
    rewrite (with_indicators_close _ _ Hc) in Hk. done.
  - assert (Hlen : (0 < length (x :: close))%nat) by (simpl; lia).
    rewrite (key_insights_with_indicators _ _ Hc Hlen) in Hk.
    injection Hk as <-. done.
Qed.

Lemma last_cell_warmup w agg close :
  (length close < w)%nat → last_cell (rolling w agg close) = NaN.
Proof.
  intros Hw. destruct close as [|x close]; [done|].
  apply (last_cell_at _ (length close)); [by rewrite rolling_length|].
  apply rolling_warmup; simpl in *; lia.
Qed.

Lemma last_cell_rsi_warmup w close :
  (length close < w)%nat → last_cell (rsi close w) = NaN.
Proof.
  intros Hw. destruct close as [|x close]; [done|].
  apply (last_cell_at _ (length close)); [by rewrite rsi_length|].
  apply rsi_warmup; simpl in *; lia.
Qed.

Lemma last_cell_bands_warmup w k close :
  (length close < w)%nat →
  last_cell (hband (bollinger close w k)) = NaN ∧
  last_cell (lband (bollinger close w k)) = NaN.
Proof.
  intros Hw. destruct close as [|x close]; [done|].
  assert (Hm : rolling_mean w (x :: close) !! length close = Some NaN).
  { apply rolling_warmup; simpl in *; lia. }
  assert (Hs : rolling_std w 0 (x :: close) !! length close = Some NaN).
  { apply rolling_warmup; simpl in *; lia. }
  split.
  - apply (last_cell_at _ (length close)); [by rewrite hband_length|].
    unfold bollinger, hband.
    by rewrite lookup_zip_with, list_lookup_fmap, Hm, Hs.
  - apply (last_cell_at _ (length close)); [by rewrite lband_length|].
    unfold bollinger, lband.
    by rewrite lookup_zip_with, list_lookup_fmap, Hm, Hs.
Qed.

(** X8.  On a short history the page still shows all its insights: with
    fewer than 200 bars the trend is reported sideways, with fewer than 14
    bars the RSI range is reported neutral, and with fewer than 20 bars
    the price is reported within the bands and the volatility is NaN. *)
Theorem short_history_insights df hd ins close :
  script df = Analysis hd ins → getitem df "Close" = Some close →
  ((length close < 200)%nat → trend ins = Sideways) ∧
  ((length close < 14)%nat → momentum ins = Neutral) ∧
  ((length close < 20)%nat →
   band_state ins = WithinBands ∧ latest_volatility ins = NaN).
Proof.
  intros H Hc.
  destruct (script_analysis_of_close _ _ _ _ H Hc) as (_ & _ & ->).
  unfold insights_of; cbn [trend momentum band_state latest_volatility].
  split; [|split].
  - intros Hn. apply classify_trend_nan. right.
    by apply last_cell_warmup.
  - intros Hn. by rewrite last_cell_rsi_warmup.
  - intros Hn. split.
    + destruct (last_cell_bands_warmup 20 2 close) as [-> ->]; [done|].
      apply classify_bands_nan.
    + by apply last_cell_warmup.
Qed.

(** With one bar: sideways, neutral, within the bands, volatility NaN. *)
Lemma short_history_insights_witness :
  trend (insights_of one_bar) = Sideways ∧
  momentum (insights_of one_bar) = Neutral ∧
  band_state (insights_of one_bar) = WithinBands ∧
  latest_volatility (insights_of one_bar) = NaN.
Proof.
  destruct (short_history_insights (price_frame one_bar)
              (with_indicators (price_frame one_bar) one_bar)
              (insights_of one_bar) one_bar) as (Ht & Hm & Hb).
  - apply script_price_frame. simpl. lia.
  - apply price_frame_close.
  - split; [apply Ht; simpl; lia|].
    split; [apply Hm; simpl; lia|].
    apply Hb. simpl. lia.
Defined.

Lemma finite_vals_NaN l : NaN ∈ l → finite_vals l = None.
Proof.
  induction l as [|[r|] l IH]; simpl.
  - intros H. by apply elem_of_nil in H.
  - intros H. apply elem_of_cons in H as [H|H]; [done|].
    by rewrite (IH H).
  - done.
Qed.

Lemma window_lookup w i (s : list float) j x :
  (S i - w ≤ j)%nat → (j ≤ i)%nat → s !! j = Some x → x ∈ window w i s.
Proof.
  intros Hlo Hhi Hx. unfold window.
  apply (list_elem_of_lookup_2 _ (j - (S i - w))).
  rewrite lookup_take_lt by lia. rewrite lookup_drop.
  by replace (S i - w + (j - (S i - w)))%nat with j by lia.
Qed.

Lemma rolling_missing w agg close i j :
  (i < length close)%nat → (S i - w ≤ j)%nat → (j ≤ i)%nat →
  close !! j = Some NaN → rolling w agg close !! i = Some NaN.
Proof.
  intros Hi Hlo Hhi Hj. rewrite rolling_lookup by done.
  case_decide; [done|].
  by rewrite (finite_vals_NaN _ (window_lookup w i close j NaN Hlo Hhi Hj)).
Qed.

(** X9.  A missing close is never averaged over: every cell of the SMA50,
    SMA200, BB_High, BB_Low and Volatility columns whose window holds a
    NaN close is NaN. *)
Theorem missing_close_blanks_window df hd ins close name w col i j :
  script df = Analysis hd ins → getitem df "Close" = Some close →
  (name, w) ∈ indicator_windows → name ≠ "RSI" →
  getitem hd name = Some col →
  (i < length close)%nat → (S i - w ≤ j)%nat → (j ≤ i)%nat →
  close !! j = Some NaN →
  col !! i = Some NaN.
Proof.
  intros H Hc Hin Hrsi Hcol Hi Hlo Hhi Hj.
  destruct (script_analysis_of_close _ _ _ _ H Hc) as (_ & -> & _).
  apply indicator_windows_inv in Hin
    as [[-> ->]|[[-> ->]|[[-> ->]|[[-> ->]|[[-> ->]|[-> ->]]]]]];
    try done.
  - rewrite with_indicators_sma50 in Hcol. injection Hcol as <-.
    by apply (rolling_missing 50 _ close i j).
  - rewrite with_indicators_sma200 in Hcol. injection Hcol as <-.
    by apply (rolling_missing 200 _ close i j).
  - rewrite with_indicators_bb_high in Hcol. injection Hcol as <-.
    unfold bollinger, hband, rolling_mean, rolling_std.
    rewrite lookup_zip_with, list_lookup_fmap.
    by rewrite !(rolling_missing 20 _ close i j).
  - rewrite with_indicators_bb_low in Hcol. injection Hcol as <-.
    unfold bollinger, lband, rolling_mean, rolling_std.
    rewrite lookup_zip_with, list_lookup_fmap.
    by rewrite !(rolling_missing 20 _ close i j).
  - rewrite with_indicators_volatility in Hcol. injection Hcol as <-.
    by apply (rolling_missing 20 _ close i j).
Qed.

(** The tenth close of the gap series is missing, and its last volatility
    cell, whose window holds that bar, is NaN. *)
Lemma missing_close_blanks_window_witness :
  rolling_std 20 1 gap !! 19%nat = Some NaN.
Proof.
  apply (missing_close_blanks_window (price_frame gap)
           (with_indicators (price_frame gap) gap) (insights_of gap) gap
           "Volatility" 20%nat (rolling_std 20 1 gap) 19 9).
  - apply script_price_frame. simpl. lia.
  - apply price_frame_close.
  - unfold indicator_windows. rewrite !elem_of_cons. tauto.
  - done.
  - apply with_indicators_volatility.
  - simpl. lia.
  - lia.
  - lia.
  - reflexivity.
Defined.

(** X10.  A missing close does not blank the RSI: from the 14th bar on
    every RSI cell is a number between 0 and 100 whatever the closes are,
    because [where] replaces the NaN differences by 0. *)
Theorem rsi_survives_missing_closes df hd ins close col i :
  script df = Analysis hd ins → getitem df "Close" = Some close →
  getitem hd "RSI" = Some col →
  (i < length close)%nat → (14 ≤ S i)%nat →
  ∃ r, col !! i = Some (Num r) ∧ 0 <= r <= 100.
Proof.
  intros H Hc Hcol Hi Hw.
  destruct (script_analysis_of_close _ _ _ _ H Hc) as (_ & -> & _).
  rewrite with_indicators_rsi in Hcol. injection Hcol as <-.
  destruct (rsi_defined close 14 i) as [r Hr]; [lia|done|done|].
  exists r. split; [done|].
  apply (rsi_cell_bounded close 14 i r); [lia|done].
Qed.

(** The last RSI cell of the gap series is a number. *)
Lemma rsi_survives_missing_closes_witness :
  ∃ r, rsi gap 14 !! 19%nat = Some (Num r) ∧ 0 <= r <= 100.
Proof.
  apply (rsi_survives_missing_closes (price_frame gap)
           (with_indicators (price_frame gap) gap) (insights_of gap) gap).
  - apply script_price_frame. simpl. lia.
  - apply price_frame_close.
  - apply with_indicators_rsi.
  - simpl. lia.
  - lia.
Defined.

End short_histories.

(* ===================================================================== *)
(** ** Further properties: one-way series and the RSI *)
(* ===================================================================== *)

Section one_way_series.

Local Open Scope R_scope.

Lemma rsi_last_no_drop close :
  no_drop close → (14 ≤ length close)%nat →
  last_cell (rsi close 14) = Num 100.
Proof.
  intros Hmono Hlen.
  apply (last_cell_at _ (length close - 1)); [rewrite rsi_length; lia|].
  destruct (rsi_defined close 14 (length close - 1)) as [r Hr]; [lia..|].
  rewrite Hr. do 2 f_equal.
  destruct (lookup_lt_is_Some_2
              (ewm_raw (1 / INR 14) (down_direction close))
              (length close - 1)) as [d Hd].
  { rewrite ewm_raw_length, down_direction_length. lia. }
  apply (rsi_zero_loss close 14 (length close - 1) r d); [lia|done|done|].
  by apply (emadn_no_drop close (1 / INR 14) (length close - 1)).
Qed.

(** X11.  A history of at least 14 bars in which no close is below the one
    before it (a flat history included) has its last RSI at 100 and is
    reported as overbought. *)
Theorem no_drop_is_overbought df hd ins close :
  script df = Analysis hd ins → getitem df "Close" = Some close →
  no_drop close → (14 ≤ length close)%nat →
  latest hd "RSI" = Some (Num 100) ∧ momentum ins = Overbought.
Proof.
  intros H Hc Hmono Hlen.
  destruct (script_analysis_of_close _ _ _ _ H Hc) as (Hpos & -> & ->).
  destruct (latest_with_indicators df close Hc Hpos) as (_ & _ & _ & Hr & _).
  rewrite (rsi_last_no_drop close Hmono Hlen) in Hr.
  split; [done|].
  unfold insights_of; cbn [momentum].
  rewrite (rsi_last_no_drop close Hmono Hlen).
  unfold classify_rsi. rewrite fgt_true by lra. done.
Qed.

(** Fourteen equal closes are reported as overbought. *)
Lemma no_drop_is_overbought_witness :
  momentum (insights_of flat) = Overbought.
Proof.
  destruct (no_drop_is_overbought (price_frame flat)
              (with_indicators (price_frame flat) flat) (insights_of flat)
              flat) as [_ Hm].
  - apply script_price_frame. simpl. lia.
  - apply price_frame_close.
  - apply two_level_no_drop. lra.
  - simpl. lia.
  - exact Hm.
Defined.

Lemma ewm_from_lookup_S alpha y xs t y' x :
  ewm_from alpha y xs !! t = Some y' → xs !! S t = Some x →
  ewm_from alpha y xs !! S t = Some ((1 - alpha) * y' + alpha * x).
Proof.
  revert y xs. induction t as [|t IH]; intros y [|x0 xs]; simpl; try done.
  - intros [= <-] Hx. destruct xs as [|x1 xs]; [done|].
    simpl in *. by injection Hx as ->.
  - intros Hy Hx. by apply IH.
Qed.

Lemma ewm_raw_lookup_S alpha xs t y x :
  ewm_raw alpha xs !! t = Some y → xs !! S t = Some x →
  ewm_raw alpha xs !! S t = Some ((1 - alpha) * y + alpha * x).
Proof.
  destruct xs as [|x0 xs]; [done|]. simpl. destruct t as [|t]; simpl.
  - intros [= <-] Hx. destruct xs as [|x1 xs]; [done|].
    simpl in *. by injection Hx as ->.
  - intros Hy Hx. by apply ewm_from_lookup_S.
Qed.

Lemma diff_lookup_S s j a b :
  s !! j = Some a → s !! S j = Some b → diff s !! S j = Some (fsub b a).
Proof.
  destruct s as [|x t]; [done|]. simpl. intros Ha Hb.
  by rewrite lookup_zip_with, Hb, Ha.
Qed.

Lemma strictly_decreasing_no_rise close :
  strictly_decreasing close → no_rise close.
Proof. intros H j a b Ha Hb. specialize (H j a b Ha Hb). lra. Qed.

(** After a fall from [a] to [b] the smoothed loss is positive. *)
Lemma emadn_after_fall close j a b d :
  close !! j = Some (Num a) → close !! S j = Some (Num b) → b < a →
  ewm_raw (1 / INR 14) (down_direction close) !! S j = Some d → 0 < d.
Proof.
  intros Ha Hb Hab Hd.
  assert (Hx : down_direction close !! S j = Some (a - b)).
  { unfold down_direction.
    rewrite list_lookup_fmap, (diff_lookup_S _ _ _ _ Ha Hb). simpl.
    rewrite decide_True by lra. f_equal. lra. }
  destruct (lookup_lt_is_Some_2
              (ewm_raw (1 / INR 14) (down_direction close)) j) as [y Hy].
  { apply lookup_lt_Some in Hd. lia. }
  rewrite (ewm_raw_lookup_S _ _ _ _ _ Hy Hx) in Hd. injection Hd as <-.
  pose proof (smoothing_factor_range 14) as Ha14.
  assert (0 <= y).
  { eapply (Forall_lookup_1 _ _ _ _ (ewm_raw_nonneg (1 / INR 14) _ _
              (down_direction_nonneg close)) Hy). }
  assert (0 < 1 / INR 14 <= 1) by (apply Ha14; lia).
  nra.
  Unshelve. all: assert (0 < 1 / INR 14 <= 1) by (apply Ha14; lia); lra.
Qed.

Lemma rsi_cell_no_gain d : 0 < d → rsi_cell (Num 0) (Num d) = Num 0.
Proof.
  intros Hd. unfold rsi_cell. rewrite decide_False by lra.
  unfold fdiv at 2. rewrite decide_False by lra.
  assert (Hq : 0 / d = 0) by (unfold Rdiv; lra).
  unfold fadd, fdiv. rewrite Hq, decide_False by lra.
  unfold fsub. f_equal. lra.
Qed.

(** X12.  A history of at least 14 bars in which every close is below the
    one before it has its last RSI at 0 and is reported as oversold. *)
Theorem steady_fall_is_oversold df hd ins (cs : list R) :
  script df = Analysis hd ins → getitem df "Close" = Some (Num <$> cs) →
  strictly_decreasing (Num <$> cs) → (14 ≤ length cs)%nat →
  latest hd "RSI" = Some (Num 0) ∧ momentum ins = Oversold.
Proof.
  intros H Hc Hmono Hlen.
  destruct (script_analysis_of_close _ _ _ _ H Hc) as (Hpos & -> & ->).
  destruct (latest_with_indicators df _ Hc Hpos) as (_ & _ & _ & Hr & _).
  set (close := Num <$> cs) in *.
  assert (Hn : length close = length cs) by apply length_fmap.
  assert (Hlast : last_cell (rsi close 14) = Num 0).
  { apply (last_cell_at _ (S (length cs - 2))); [rewrite rsi_length; lia|].
    destruct (rsi_lookup close 14 (S (length cs - 2)))
      as (u & d & Hu & Hd & Hcell); [lia|].
    rewrite decide_False in Hcell by lia. rewrite Hcell. f_equal.
    assert (u = 0) as ->.
    { eapply emaup_no_rise; [|exact Hu].
      by apply strictly_decreasing_no_rise. }
    apply rsi_cell_no_gain.
    destruct (lookup_lt_is_Some_2 cs (length cs - 2)) as [a Ha]; [lia|].
    destruct (lookup_lt_is_Some_2 cs (S (length cs - 2))) as [b Hb]; [lia|].
    assert (Ha' : close !! (length cs - 2)%nat = Some (Num a)).
    { unfold close. by rewrite list_lookup_fmap, Ha. }
    assert (Hb' : close !! S (length cs - 2) = Some (Num b)).
    { unfold close. by rewrite list_lookup_fmap, Hb. }
    apply (emadn_after_fall close _ a b d Ha' Hb'); [|done].
    by apply (Hmono (length cs - 2)%nat). }
  rewrite Hlast in Hr. split; [done|].
  unfold insights_of; cbn [momentum]. rewrite Hlast.
  unfold classify_rsi, flt. rewrite fgt_false by lra.
  by rewrite fgt_true by lra.
Qed.

Lemma slide_strictly_decreasing :
  strictly_decreasing (Num <$> ((λ k, INR (15 - k)) <$> seq 1 14)).
Proof.
  intros j a b Ha Hb. rewrite !list_lookup_fmap in Ha, Hb.
  destruct (seq 1 14 !! j) as [k|] eqn:Hk; [|done].
  destruct (seq 1 14 !! S j) as [k'|] eqn:Hk'; [|done].
  simpl in Ha, Hb. injection Ha as <-. injection Hb as <-.
  apply lookup_seq in Hk as [-> ?]. apply lookup_seq in Hk' as [-> ?].
  apply lt_INR. lia.
Qed.

(** Fourteen closes falling from 14 to 1 are reported as oversold. *)
Lemma steady_fall_is_oversold_witness :
  momentum (insights_of slide) = Oversold.
Proof.
  destruct (steady_fall_is_oversold (price_frame slide)
              (with_indicators (price_frame slide) slide) (insights_of slide)
              ((λ k, INR (15 - k)) <$> seq 1 14)) as [_ Hm].
  - apply script_price_frame. simpl. lia.
  - apply price_frame_close.
  - apply slide_strictly_decreasing.
  - simpl. lia.
  - exact Hm.
Defined.

End one_way_series.

(* ===================================================================== *)
(** ** Further properties: the trend of a one-way year *)
(* ===================================================================== *)

Section one_way_trend.

Local Open Scope R_scope.

Lemma increasing_lookup cs j k a b :
  strictly_increasing (Num <$> cs) → (j < k)%nat →
  cs !! j = Some a → cs !! k = Some b → a < b.
Proof.
  intros Hinc. revert b. induction k as [|k IH]; intros b Hjk Ha Hb; [lia|].
  destruct (lookup_lt_is_Some_2 cs k) as [c Hc].
  { apply lookup_lt_Some in Hb. lia. }
  assert (Hcb : c < b).
  { apply (Hinc k); by rewrite list_lookup_fmap, ?Hc, ?Hb. }
  destruct (decide (j = k)) as [->|Hne].
  - rewrite Ha in Hc. by injection Hc as ->.
  - assert (a < c) by (apply IH; [lia|done|done]). lra.
Qed.

Lemma decreasing_lookup cs j k a b :
  strictly_decreasing (Num <$> cs) → (j < k)%nat →
  cs !! j = Some a → cs !! k = Some b → b < a.
Proof.
  intros Hdec. revert b. induction k as [|k IH]; intros b Hjk Ha Hb; [lia|].
  destruct (lookup_lt_is_Some_2 cs k) as [c Hc].
  { apply lookup_lt_Some in Hb. lia. }
  assert (Hcb : b < c).
  { apply (Hdec k); by rewrite list_lookup_fmap, ?Hc, ?Hb. }
  destruct (decide (j = k)) as [->|Hne].
  - rewrite Ha in Hc. by injection Hc as ->.
  - assert (c < a) by (apply IH; [lia|done|done]). lra.
Qed.

Lemma Rsum_below p xs :
  xs ≠ [] → Forall (λ x, x < p) xs → Rsum xs < INR (length xs) * p.
Proof.
  intros Hne Hxs. induction Hxs as [|x xs Hx Hxs IH]; [done|].
  rewrite length_cons, S_INR. unfold Rsum in *. simpl.
  destruct xs as [|y ys].
  - simpl. lra.
  - assert (foldr Rplus 0 (y :: ys) < INR (length (y :: ys)) * p)
      by (by apply IH).
    lra.
Qed.

Lemma Rsum_above p xs :
  xs ≠ [] → Forall (λ x, p < x) xs → INR (length xs) * p < Rsum xs.
Proof.
  intros Hne Hxs. induction Hxs as [|x xs Hx Hxs IH]; [done|].
  rewrite length_cons, S_INR. unfold Rsum in *. simpl.
  destruct xs as [|y ys].
  - simpl. lra.
  - assert (INR (length (y :: ys)) * p < foldr Rplus 0 (y :: ys))
      by (by apply IH).
    lra.
Qed.

Lemma Rsum_at_least p xs :
  Forall (λ x, p <= x) xs → INR (length xs) * p <= Rsum xs.
Proof.
  induction 1 as [|x xs Hx _ IH]; [unfold Rsum; simpl; lra|].
  rewrite length_cons, S_INR. unfold Rsum in *. simpl. lra.
Qed.

Lemma Rsum_at_most p xs :
  Forall (λ x, x <= p) xs → Rsum xs <= INR (length xs) * p.
Proof.
  induction 1 as [|x xs Hx _ IH]; [unfold Rsum; simpl; lra|].
  rewrite length_cons, S_INR. unfold Rsum in *. simpl. lra.
Qed.

(** The mean of a tail whose values are above all earlier ones is above
    the mean of the whole. *)
Lemma mean_tail_above zs ys p :
  zs ≠ [] → ys ≠ [] →
  Forall (λ z, z < p) zs → Forall (λ y, p <= y) ys →
  mean (zs ++ ys) < mean ys.
Proof.
  intros Hz Hy Hzs Hys.
  pose proof (Rsum_below p zs Hz Hzs) as HA.
  pose proof (Rsum_at_least p ys Hys) as HB.
  assert (Ha : 0 < INR (length zs)).
  { apply lt_0_INR. destruct zs; [done|simpl; lia]. }
  assert (Hb : 0 < INR (length ys)).
  { apply lt_0_INR. destruct ys; [done|simpl; lia]. }
  unfold mean. rewrite Rsum_app, length_app, plus_INR.
  set (a := INR (length zs)) in *. set (b := INR (length ys)) in *.
  set (A := Rsum zs) in *. set (B := Rsum ys) in *.
  assert (Hcross : b * A < a * B) by nra.
  apply (Rmult_lt_reg_r (b * (a + b))); [nra|].
  replace ((A + B) / (a + b) * (b * (a + b))) with (b * (A + B))
    by (field; lra).
  replace (B / b * (b * (a + b))) with (B * (a + b)) by (field; lra).
  lra.
Qed.

Lemma mean_tail_below zs ys p :
  zs ≠ [] → ys ≠ [] →
  Forall (λ z, p < z) zs → Forall (λ y, y <= p) ys →
  mean ys < mean (zs ++ ys).
Proof.
  intros Hz Hy Hzs Hys.
  pose proof (Rsum_above p zs Hz Hzs) as HA.
  pose proof (Rsum_at_most p ys Hys) as HB.
  assert (Ha : 0 < INR (length zs)).
  { apply lt_0_INR. destruct zs; [done|simpl; lia]. }
  assert (Hb : 0 < INR (length ys)).
  { apply lt_0_INR. destruct ys; [done|simpl; lia]. }
  unfold mean. rewrite Rsum_app, length_app, plus_INR.
  set (a := INR (length zs)) in *. set (b := INR (length ys)) in *.
  set (A := Rsum zs) in *. set (B := Rsum ys) in *.
  assert (Hcross : a * B < b * A) by nra.
  apply (Rmult_lt_reg_r (b * (a + b))); [nra|].
  replace ((A + B) / (a + b) * (b * (a + b))) with (b * (A + B))
    by (field; lra).
  replace (B / b * (b * (a + b))) with (B * (a + b)) by (field; lra).
  lra.
Qed.

(** The last 50-day and 200-day averages, as means of the last closes. *)
Lemma last_averages (cs : list R) :
  (200 ≤ length cs)%nat →
  last_cell (sma_indicator (Num <$> cs) 50)
  = Num (mean (drop 150 (drop (length cs - 200) cs))) ∧
  last_cell (sma_indicator (Num <$> cs) 200)
  = Num (mean (take 150 (drop (length cs - 200) cs)
               ++ drop 150 (drop (length cs - 200) cs))).
Proof.
  intros Hlen. split.
  - apply (last_cell_at _ (length cs - 1));
      [rewrite sma_indicator_length, length_fmap; lia|].
    unfold sma_indicator, rolling_mean. rewrite rolling_ready by lia.
    do 3 f_equal. rewrite drop_drop.
    replace (S (length cs - 1) - 50)%nat with (length cs - 200 + 150)%nat
      by lia.
    apply take_ge. rewrite length_drop. lia.
  - apply (last_cell_at _ (length cs - 1));
      [rewrite sma_indicator_length, length_fmap; lia|].
    unfold sma_indicator, rolling_mean. rewrite rolling_ready by lia.
    do 3 f_equal. rewrite take_drop.
    replace (S (length cs - 1) - 200)%nat with (length cs - 200)%nat by lia.
    apply take_ge. rewrite length_drop. lia.
Qed.

(** X15.  On a history of at least 200 bars, closes that rise from every
    bar to the next are reported as an upward trend, and closes that fall
    from every bar to the next as a downward trend. *)
Theorem one_way_year_trend df hd ins (cs : list R) :
  script df = Analysis hd ins → getitem df "Close" = Some (Num <$> cs) →
  (200 ≤ length cs)%nat →
  (strictly_increasing (Num <$> cs) → trend ins = Upward) ∧
  (strictly_decreasing (Num <$> cs) → trend ins = Downward).
Proof.
  intros H Hc Hlen.
  destruct (script_analysis_of_close _ _ _ _ H Hc) as (_ & _ & ->).
  destruct (last_averages cs Hlen) as [H50 H200].
  unfold insights_of; cbn [trend]. rewrite H50, H200.
  set (m := (length cs - 200)%nat) in *.
  destruct (lookup_lt_is_Some_2 cs (m + 150)) as [p Hp]; [lia|].
  assert (Hz : take 150 (drop m cs) ≠ []).
  { assert (Hl : length (take 150 (drop m cs)) = 150%nat)
      by (rewrite length_take, length_drop; lia).
    intros Hnil. by rewrite Hnil in Hl. }
  assert (Hy : drop 150 (drop m cs) ≠ []).
  { assert (Hl : length (drop 150 (drop m cs)) = 50%nat)
      by (rewrite !length_drop; lia).
    intros Hnil. by rewrite Hnil in Hl. }
  split; intros Hmono.
  - unfold classify_trend. rewrite fgt_true; [done|].
    apply (mean_tail_above _ _ p Hz Hy).
    + apply Forall_forall. intros z Hzin.
      apply elem_of_take in Hzin as (j & Hj & Hlt).
      rewrite lookup_drop in Hj.
      apply (increasing_lookup cs (m + j) (m + 150) z p); [done|lia|done|done].
    + apply Forall_forall. intros y Hyin.
      apply list_elem_of_lookup in Hyin as [j Hj].
      rewrite !lookup_drop in Hj.
      destruct j as [|j].
      * replace (m + (150 + 0))%nat with (m + 150)%nat in Hj by lia.
        rewrite Hp in Hj. injection Hj as ->. lra.
      * assert (p < y); [|lra].
        apply (increasing_lookup cs (m + 150) (m + (150 + S j)) p y);
          [done|lia|done|done].
  - unfold classify_trend, flt.
    assert (Hlt : mean (drop 150 (drop m cs))
                  < mean (take 150 (drop m cs) ++ drop 150 (drop m cs))).
    { apply (mean_tail_below _ _ p Hz Hy).
      + apply Forall_forall. intros z Hzin.
        apply elem_of_take in Hzin as (j & Hj & Hlt).
        rewrite lookup_drop in Hj.
        apply (decreasing_lookup cs (m + j) (m + 150) z p);
          [done|lia|done|done].
      + apply Forall_forall. intros y Hyin.
        apply list_elem_of_lookup in Hyin as [j Hj].
        rewrite !lookup_drop in Hj.
        destruct j as [|j].
        * replace (m + (150 + 0))%nat with (m + 150)%nat in Hj by lia.
          rewrite Hp in Hj. injection Hj as ->. lra.
        * assert (y < p); [|lra].
          apply (decreasing_lookup cs (m + 150) (m + (150 + S j)) p y);
            [done|lia|done|done]. }
    rewrite fgt_false by lra. by rewrite fgt_true.
Qed.

Lemma ascent_strictly_increasing :
  strictly_increasing (Num <$> (INR <$> seq 1 200)).
Proof.
  intros j a b Ha Hb. rewrite !list_lookup_fmap in Ha, Hb.
  destruct (seq 1 200 !! j) as [k|] eqn:Hk; [|done].
  destruct (seq 1 200 !! S j) as [k'|] eqn:Hk'; [|done].
  simpl in Ha, Hb. injection Ha as <-. injection Hb as <-.
  apply lookup_seq in Hk as [-> ?]. apply lookup_seq in Hk' as [-> ?].
  apply lt_INR. lia.
Qed.

Lemma ascent_fmap : ascent = Num <$> (INR <$> seq 1 200).
Proof. unfold ascent. by rewrite <- list_fmap_compose. Qed.

(** Two hundred closes rising from 1 to 200 are an upward trend. *)
Lemma one_way_year_trend_witness : trend (insights_of ascent) = Upward.
Proof.
  rewrite ascent_fmap.
  destruct (one_way_year_trend
              (price_frame (Num <$> (INR <$> seq 1 200)))
              (with_indicators (price_frame (Num <$> (INR <$> seq 1 200)))
                 (Num <$> (INR <$> seq 1 200)))
              (insights_of (Num <$> (INR <$> seq 1 200)))
              (INR <$> seq 1 200)) as [Hup _].
  - apply script_price_frame. rewrite !length_fmap, length_seq. lia.
  - apply price_frame_close.
  - rewrite length_fmap, length_seq. lia.
  - apply Hup, ascent_strictly_increasing.
Defined.

End one_way_trend.

(* ===================================================================== *)
(** ** Further properties: flat stretches and unused columns *)
(* ===================================================================== *)

Section flat_stretches.

Local Open Scope R_scope.

Lemma flat_window_cells (cs : list R) w c :
  (0 < w)%nat → (w ≤ length cs)%nat →
  drop (length cs - w) cs = replicate w c →
  rolling_mean w (Num <$> cs) !! (length cs - 1)%nat = Some (Num c) ∧
  (∀ ddof, (ddof < w)%nat →
     rolling_std w ddof (Num <$> cs) !! (length cs - 1)%nat = Some (Num 0)).
Proof.
  intros Hw Hlen Hflat.
  assert (Hwin : take w (drop (S (length cs - 1) - w) cs) = replicate w c).
  { replace (S (length cs - 1) - w)%nat with (length cs - w)%nat by lia.
    rewrite Hflat. apply take_ge. by rewrite length_replicate. }
  split.
  - unfold rolling_mean. rewrite rolling_ready by lia.
    by rewrite Hwin, mean_replicate.
  - intros ddof Hd. unfold rolling_std. rewrite rolling_ready by lia.
    by rewrite Hwin, std_replicate.
Qed.

(** X16.  When the last twenty closes are all equal to [c], both bands of
    the last row are [c], the reported volatility is 0 and the price is
    reported within the bands. *)
Theorem flat_month_insights df hd ins (cs : list R) c :
  script df = Analysis hd ins → getitem df "Close" = Some (Num <$> cs) →
  (20 ≤ length cs)%nat →
  drop (length cs - 20) cs = replicate 20 c →
  latest hd "BB_High" = Some (Num c) ∧ latest hd "BB_Low" = Some (Num c) ∧
  latest_volatility ins = Num 0 ∧ band_state ins = WithinBands.
Proof.
  intros H Hc Hlen Hflat.
  destruct (script_analysis_of_close _ _ _ _ H Hc) as (Hpos & -> & ->).
  destruct (latest_with_indicators df _ Hc Hpos)
    as (_ & _ & _ & _ & Hu & Hl & _).
  destruct (flat_window_cells cs 20 c) as [Hm Hs]; [lia|done|done|].
  assert (Hhi : last_cell (hband (bollinger (Num <$> cs) 20 2)) = Num c).
  { apply (last_cell_at _ (length cs - 1));
      [rewrite hband_length, length_fmap; lia|].
    unfold bollinger, hband.
    rewrite lookup_zip_with, list_lookup_fmap, Hm, (Hs 0%nat) by lia.
    simpl. do 2 f_equal. lra. }
  assert (Hlo : last_cell (lband (bollinger (Num <$> cs) 20 2)) = Num c).
  { apply (last_cell_at _ (length cs - 1));
      [rewrite lband_length, length_fmap; lia|].
    unfold bollinger, lband.
    rewrite lookup_zip_with, list_lookup_fmap, Hm, (Hs 0%nat) by lia.
    simpl. do 2 f_equal. lra. }
  assert (Hvol : last_cell (rolling_std 20 1 (Num <$> cs)) = Num 0).
  { apply (last_cell_at _ (length cs - 1));
      [rewrite rolling_std_length, length_fmap; lia|].
    apply Hs. lia. }
  assert (Hlast : last_cell (Num <$> cs) = Num c).
  { apply (last_cell_at _ (length cs - 1)); [rewrite length_fmap; lia|].
    rewrite list_lookup_fmap.
    replace (length cs - 1)%nat with (length cs - 20 + 19)%nat by lia.
    rewrite <- lookup_drop, Hflat.
    by rewrite lookup_replicate_2 by lia. }
  rewrite Hhi in Hu. rewrite Hlo in Hl.
  split; [done|]. split; [done|].
  unfold insights_of; cbn [latest_volatility band_state].
  rewrite Hvol, Hhi, Hlo, Hlast. split; [done|].
  apply classify_bands_cases; lra.
Qed.

(** The rally ends with twenty closes at 20: bands at 20, volatility 0,
    price within the bands. *)
Lemma flat_month_insights_witness :
  latest_volatility (insights_of rally) = Num 0 ∧
  band_state (insights_of rally) = WithinBands.
Proof.
  destruct (flat_month_insights (price_frame rally)
              (with_indicators (price_frame rally) rally) (insights_of rally)
              (two_level 150 50 10 20) 20) as (_ & _ & Hv & Hb).
  - apply script_price_frame. simpl. lia.
  - apply price_frame_close.
  - rewrite two_level_length. lia.
  - reflexivity.
  - by split.
Defined.

(** X17.  When the last two hundred closes are all equal, the 50-day and
    the 200-day average coincide and the trend is reported sideways. *)
Theorem flat_year_is_sideways df hd ins (cs : list R) c :
  script df = Analysis hd ins → getitem df "Close" = Some (Num <$> cs) →
  (200 ≤ length cs)%nat →
  drop (length cs - 200) cs = replicate 200 c →
  latest hd "SMA50" = Some (Num c) ∧ latest hd "SMA200" = Some (Num c) ∧
  trend ins = Sideways.
Proof.
  intros H Hc Hlen Hflat.
  destruct (script_analysis_of_close _ _ _ _ H Hc) as (Hpos & -> & ->).
  destruct (latest_with_indicators df _ Hc Hpos) as (_ & H50 & H200 & _).
  destruct (last_averages cs Hlen) as [E50 E200].
  rewrite take_drop, Hflat in E200. rewrite Hflat, drop_replicate in E50.
  rewrite mean_replicate in E50 by lia.
  rewrite mean_replicate in E200 by lia.
  rewrite E50 in H50. rewrite E200 in H200.
  split; [done|]. split; [done|].
  unfold insights_of; cbn [trend]. rewrite E50, E200.
  by apply classify_trend_cases.
Qed.

(** Two hundred closes at 10 are a sideways trend. *)
Lemma flat_year_is_sideways_witness :
  trend (insights_of (Num <$> replicate 200 10)) = Sideways.
Proof.
  destruct (flat_year_is_sideways (price_frame (Num <$> replicate 200 10))
              (with_indicators (price_frame (Num <$> replicate 200 10))
                 (Num <$> replicate 200 10))
              (insights_of (Num <$> replicate 200 10))
              (replicate 200 10) 10) as (_ & _ & Ht).
  - apply script_price_frame. rewrite length_fmap, length_replicate. lia.
  - apply price_frame_close.
  - rewrite length_replicate. lia.
  - rewrite length_replicate. reflexivity.
  - exact Ht.
Defined.

(** X18.  The analysis reads the Close column and nothing else of the
    fetched frame: two frames with the same Close column get the same
    insights and the same six indicator columns. *)
Theorem analysis_reads_close_only df hd ins df' hd' ins' :
  script df = Analysis hd ins → script df' = Analysis hd' ins' →
  getitem df "Close" = getitem df' "Close" →
  ins = ins' ∧
  ∀ name, name ∈ indicator_names → getitem hd name = getitem hd' name.
Proof.
  intros H H' Hsame.
  pose proof (script_analysis_inv _ _ _ H) as (close & Hc & _ & _).
  assert (Hc' : getitem df' "Close" = Some close) by (by rewrite <- Hsame).
  destruct (script_analysis_of_close _ _ _ _ H Hc) as (_ & -> & ->).
  destruct (script_analysis_of_close _ _ _ _ H' Hc') as (_ & -> & ->).
  split; [done|].
  intros name Hname. unfold indicator_names in Hname. simpl in Hname.
  rewrite !elem_of_cons, elem_of_nil in Hname.
  destruct Hname as [->|[->|[->|[->|[->|[->|[]]]]]]].
  - by rewrite !with_indicators_sma50.
  - by rewrite !with_indicators_sma200.
  - by rewrite !with_indicators_rsi.
  - by rewrite !with_indicators_bb_high.
  - by rewrite !with_indicators_bb_low.
  - by rewrite !with_indicators_volatility.
Qed.

(** The swing with an extra Volume column gets the RSI column of the swing
    alone. *)
Lemma analysis_reads_close_only_witness :
  getitem (with_indicators (price_frame swing) swing) "RSI"
  = getitem (with_indicators
               (setitem (price_frame swing) "Volume" (replicate 20 (Num 5)))
               swing) "RSI".
Proof.
  destruct (analysis_reads_close_only (price_frame swing)
              (with_indicators (price_frame swing) swing) (insights_of swing)
              (setitem (price_frame swing) "Volume" (replicate 20 (Num 5)))
              (with_indicators
                 (setitem (price_frame swing) "Volume" (replicate 20 (Num 5)))
                 swing)
              (insights_of swing)) as [_ Hcols].
  - apply script_price_frame. simpl. lia.
  - apply script_analysis.
    + apply (empty_false _ swing); [done|].
      rewrite getitem_setitem_ne by done. apply price_frame_close.
    + rewrite getitem_setitem_ne by done. apply price_frame_close.
    + simpl. lia.
  - rewrite getitem_setitem_ne by done. reflexivity.
  - apply Hcols. unfold indicator_names, indicator_windows. simpl.
    rewrite !elem_of_cons. tauto.
Defined.

End flat_stretches.
